(** * MQTT relay (mqtt_relay.py): a shallow embedding and its properties

    The relay subscribes to a Mosquitto broker and republishes what it
    receives to RabbitMQ.  The embedding follows the module top to bottom:
    the configuration constants, [_connect_rabbitmq], the three callbacks
    [on_connect], [on_message], [on_disconnect], and [main].

    The calls into paho-mqtt and into the logger are the observable actions
    of the program; they are recorded, in order, in a trace.  What the
    outside world answers is an explicit argument of the model:

    - [connect] returns, or raises [OSError] (the class both [except]
      clauses of the module name) when the connection cannot be
      established; the CONNACK of the broker arrives later, through
      [on_connect] for the Mosquitto client, and is not observed for the
      RabbitMQ client, which has no callback;
    - [publish] returns an [MQTTMessageInfo], whose [rc] says whether the
      message was accepted;
    - [subscribe], [loop_start], [loop_stop] and [disconnect] return;
    - [loop_forever] calls the callbacks, one after the other, until
      Ctrl+C raises [KeyboardInterrupt] in it; an exception raised by a
      callback leaves [loop_forever] (paho re-raises it, its
      [suppress_exceptions] being off by default).

    Python's [bytes.decode], [json.loads] and the [in] operator, on which
    [on_message] depends, are embedded as executable functions. *)

From Stdlib Require Import List String Ascii Strings.Byte NArith ZArith Lia Bool Zify.
From Stdlib Require DecimalFacts DecimalPos.
Import ListNotations.

Set Implicit Arguments.
Set Warnings "-register-all".

(** Arithmetic goals with [/] and [mod] by constants. *)
Ltac div_lia := zify; Z.to_euclidean_division_equations; lia.

(** ** Python values used by the relay *)

(** [bytes]: what [msg.payload] is. *)
Definition bytes := list byte.

(** [str]: a sequence of Unicode code points. *)
Definition pystr := list N.

(** A [str] literal of the source, from its ASCII spelling. *)
Definition py (s : string) : pystr :=
  map N_of_ascii (list_ascii_of_string s).

(** A [bytes] literal from its ASCII spelling. *)
Definition b_ (s : string) : bytes := list_byte_of_string s.

(** JSON texts are spelled below with an apostrophe where they have a
    double quote; [quoted] puts the double quotes (code 34) back. *)
Fixpoint quoted (s : string) : string :=
  match s with
  | EmptyString => EmptyString
  | String c s' =>
      String (if Ascii.eqb c "'" then ascii_of_N 34 else c) (quoted s')
  end.

(** ** The UTF-8 codec: [bytes.decode("utf-8")] and [str.encode("utf-8")]

    Both are strict, as Python's default error handler is: [decode] fails
    with [UnicodeDecodeError] (here [None]) on any ill-formed sequence
    (stray continuation bytes, overlong forms, encoded surrogates, values
    above U+10FFFF, truncated sequences); [encode] fails on a surrogate. *)
Module Utf8.
Local Open Scope N_scope.

Definition between (lo hi n : N) : bool := (lo <=? n) && (n <=? hi).

(** A continuation byte, 10xxxxxx. *)
Definition is_cont (n : N) : bool := between 0x80 0xBF n.

(** The second byte of a three-byte form: E0 excludes overlong forms,
    ED excludes the surrogates. *)
Definition second_of_3 (n0 n1 : N) : bool :=
  between (if n0 =? 0xE0 then 0xA0 else 0x80)
          (if n0 =? 0xED then 0x9F else 0xBF) n1.

(** The second byte of a four-byte form: F0 excludes overlong forms,
    F4 stops at U+10FFFF. *)
Definition second_of_4 (n0 n1 : N) : bool :=
  between (if n0 =? 0xF0 then 0x90 else 0x80)
          (if n0 =? 0xF4 then 0x8F else 0xBF) n1.

Fixpoint decode (bs : bytes) : option pystr :=
  match bs with
  | [] => Some []
  | b0 :: r0 =>
      let n0 := Byte.to_N b0 in
      if n0 <? 0x80 then
        option_map (cons n0) (decode r0)
      else if between 0xC2 0xDF n0 then
        match r0 with
        | b1 :: r1 =>
            let n1 := Byte.to_N b1 in
            if is_cont n1 then
              option_map (cons ((n0 - 0xC0) * 64 + (n1 - 0x80))) (decode r1)
            else None
        | _ => None
        end
      else if between 0xE0 0xEF n0 then
        match r0 with
        | b1 :: b2 :: r2 =>
            let n1 := Byte.to_N b1 in
            let n2 := Byte.to_N b2 in
            if second_of_3 n0 n1 && is_cont n2 then
              option_map
                (cons ((n0 - 0xE0) * 4096 + (n1 - 0x80) * 64 + (n2 - 0x80)))
                (decode r2)
            else None
        | _ => None
        end
      else if between 0xF0 0xF4 n0 then
        match r0 with
        | b1 :: b2 :: b3 :: r3 =>
            let n1 := Byte.to_N b1 in
            let n2 := Byte.to_N b2 in
            let n3 := Byte.to_N b3 in
            if second_of_4 n0 n1 && is_cont n2 && is_cont n3 then
              option_map
                (cons ((n0 - 0xF0) * 262144 + (n1 - 0x80) * 4096
                       + (n2 - 0x80) * 64 + (n3 - 0x80)))
                (decode r3)
            else None
        | _ => None
        end
      else None
  end.

Definition byte_of (n : N) : byte :=
  match Byte.of_N n with Some b => b | None => x00 end.

Definition encode_char (c : N) : option bytes :=
  if c <? 0x80 then Some [byte_of c]
  else if c <? 0x800 then
    Some [byte_of (0xC0 + c / 64); byte_of (0x80 + c mod 64)]
  else if c <? 0x10000 then
    if between 0xD800 0xDFFF c then None
    else Some [byte_of (0xE0 + c / 4096);
               byte_of (0x80 + (c / 64) mod 64);
               byte_of (0x80 + c mod 64)]
  else if c <? 0x110000 then
    Some [byte_of (0xF0 + c / 262144);
          byte_of (0x80 + (c / 4096) mod 64);
          byte_of (0x80 + (c / 64) mod 64);
          byte_of (0x80 + c mod 64)]
  else None.

Fixpoint encode (s : pystr) : option bytes :=
  match s with
  | [] => Some []
  | c :: s' =>
      match encode_char c, encode s' with
      | Some bc, Some bs => Some (bc ++ bs)
      | _, _ => None
      end
  end.

End Utf8.

(** ** [json.loads] on a [str], and the membership test on its result

    The scanner follows CPython's [json] module ([scan_once],
    [scanstring], the object and array loops of the C accelerator, which is
    the one [json.loads] runs): the JSON grammar of RFC 8259 plus the
    constants [NaN], [Infinity] and [-Infinity], strict control-character
    checking inside strings, [\uXXXX] escapes with surrogate pairs joined.
    Every way of failing is a [JSONDecodeError].  The limits of the
    interpreter (its recursion limit on deeply nested texts, its bound on
    the digits of an integer literal) are not part of the model. *)
Module Json.
Local Open Scope N_scope.

(** The Python objects [json.loads] builds.  A [dict] is kept as its
    key/value pairs in source order; a float as its lexeme. *)
Inductive value : Type :=
| PyNone
| PyBool (b : bool)
| PyInt (z : Z)
| PyFloat (lexeme : pystr)
| PyStr (s : pystr)
| PyList (elems : list value)
| PyDict (items : list (pystr * value)).

(** The result of scanning a prefix of the text. *)
Inductive scan (A : Type) : Type :=
| Scanned (a : A) (rest : pystr)
| Invalid
| Exhausted.
Arguments Invalid {A}.
Arguments Exhausted {A}.

Definition scan_map {A B} (f : A -> B) (r : scan A) : scan B :=
  match r with
  | Scanned a rest => Scanned (f a) rest
  | Invalid => Invalid
  | Exhausted => Exhausted
  end.

Definition chr (a : ascii) : N := N_of_ascii a.

Definition is_ws (c : N) : bool :=
  (c =? chr " ") || (c =? 9) || (c =? 10) || (c =? 13).

Definition is_digit (c : N) : bool := (chr "0" <=? c) && (c <=? chr "9").

Fixpoint skip_ws (s : pystr) : pystr :=
  match s with
  | c :: s' => if is_ws c then skip_ws s' else s
  | [] => []
  end.

Fixpoint strip_prefix (p s : pystr) : option pystr :=
  match p, s with
  | [], _ => Some s
  | a :: p', c :: s' => if a =? c then strip_prefix p' s' else None
  | _ :: _, [] => None
  end.

Definition hexval (c : N) : option N :=
  if is_digit c then Some (c - chr "0")
  else if (chr "a" <=? c) && (c <=? chr "f") then Some (c - chr "a" + 10)
  else if (chr "A" <=? c) && (c <=? chr "F") then Some (c - chr "A" + 10)
  else None.

Definition hex4 (d1 d2 d3 d4 : N) : option N :=
  match hexval d1, hexval d2, hexval d3, hexval d4 with
  | Some h1, Some h2, Some h3, Some h4 =>
      Some (((h1 * 16 + h2) * 16 + h3) * 16 + h4)
  | _, _, _, _ => None
  end.

(** The table of one-letter escapes; 34 is the double quote, 92 the
    backslash. *)
Definition escape_char (e : N) : option N :=
  if e =? 34 then Some 34
  else if e =? 92 then Some 92
  else if e =? chr "/" then Some (chr "/")
  else if e =? chr "b" then Some 8
  else if e =? chr "f" then Some 12
  else if e =? chr "n" then Some 10
  else if e =? chr "r" then Some 13
  else if e =? chr "t" then Some 9
  else None.

Definition is_high_surrogate (u : N) : bool := (0xD800 <=? u) && (u <=? 0xDBFF).
Definition is_low_surrogate (u : N) : bool := (0xDC00 <=? u) && (u <=? 0xDFFF).
Definition join_surrogates (hi lo : N) : N :=
  0x10000 + (hi - 0xD800) * 1024 + (lo - 0xDC00).

(** [scanstring]: the text after an opening quote, up to and including
    the closing quote. *)
Fixpoint scanstring (s : pystr) : scan pystr :=
  match s with
  | [] => Invalid
  | c :: s1 =>
      if c =? 34 then Scanned [] s1
      else if c =? 92 then
        match s1 with
        | [] => Invalid
        | e :: s2 =>
            if e =? chr "u" then
              match s2 with
              | d1 :: d2 :: d3 :: d4 :: s3 =>
                  match hex4 d1 d2 d3 d4 with
                  | None => Invalid
                  | Some u =>
                      match s3 with
                      | b :: v :: e1 :: e2 :: e3 :: e4 :: s4 =>
                          if is_high_surrogate u && (b =? 92) && (v =? chr "u")
                          then
                            match hex4 e1 e2 e3 e4 with
                            | None => Invalid
                            | Some u2 =>
                                if is_low_surrogate u2
                                then scan_map (cons (join_surrogates u u2))
                                              (scanstring s4)
                                else scan_map (cons u) (scanstring s3)
                            end
                          else scan_map (cons u) (scanstring s3)
                      | _ => scan_map (cons u) (scanstring s3)
                      end
                  end
              | _ => Invalid
              end
            else
              match escape_char e with
              | Some ch => scan_map (cons ch) (scanstring s2)
              | None => Invalid
              end
        end
      else if c <=? 0x1F then Invalid
      else scan_map (cons c) (scanstring s1)
  end.

(** The longest run of decimal digits at the head of the text. *)
Fixpoint span_digits (s : pystr) : pystr * pystr :=
  match s with
  | c :: s' =>
      if is_digit c
      then let (ds, rest) := span_digits s' in (c :: ds, rest)
      else ([], s)
  | [] => ([], [])
  end.

Definition int_of_digits (ds : pystr) : Z :=
  fold_left (fun acc d => (acc * 10 + Z.of_N (d - chr "0")%N)%Z) ds 0%Z.

(** The number grammar, longest match: an optional minus sign; a single
    zero, or a non-zero digit and any digits; optionally a dot and one
    digit or more; optionally e or E, an optional sign and one digit or
    more.  Each part is returned with the text that follows it, and is
    empty when it is absent. *)
Definition take_sign (s : pystr) : pystr * pystr :=
  match s with
  | c :: s' => if c =? chr "-" then ([c], s') else ([], s)
  | [] => ([], s)
  end.

Definition take_int (s : pystr) : pystr * pystr :=
  match s with
  | c :: s' =>
      if c =? chr "0" then ([c], s')
      else if is_digit c
           then let (ds, rest) := span_digits s' in (c :: ds, rest)
           else ([], s)
  | [] => ([], s)
  end.

Definition take_frac (s : pystr) : pystr * pystr :=
  match s with
  | dot :: d :: s' =>
      if (dot =? chr ".") && is_digit d
      then let (ds, rest) := span_digits s' in (dot :: d :: ds, rest)
      else ([], s)
  | _ => ([], s)
  end.

Definition take_exp (s : pystr) : pystr * pystr :=
  match s with
  | e :: s' =>
      if (e =? chr "e") || (e =? chr "E") then
        let (esign, s'') :=
          match s' with
          | g :: t =>
              if (g =? chr "-") || (g =? chr "+") then ([g], t) else ([], s')
          | [] => ([], s')
          end in
        match span_digits s'' with
        | ([], _) => ([], s)
        | (ds, rest) => (e :: esign ++ ds, rest)
        end
      else ([], s)
  | [] => ([], s)
  end.

(** The number is an [int] when it has neither fraction nor exponent, a
    [float] otherwise. *)
Definition match_number (s : pystr) : scan value :=
  let (sign, s1) := take_sign s in
  let (intpart, s2) := take_int s1 in
  match intpart with
  | [] => Invalid
  | _ :: _ =>
      let (frac, s3) := take_frac s2 in
      let (expo, s4) := take_exp s3 in
      match frac, expo with
      | [], [] =>
          Scanned (PyInt (match sign with
                          | [] => int_of_digits intpart
                          | _ :: _ => - int_of_digits intpart
                          end)%Z) s4
      | _, _ => Scanned (PyFloat (sign ++ intpart ++ frac ++ expo)) s4
      end
  end.

(** The literals, then the number grammar. *)
Definition scan_atom (s : pystr) : scan value :=
  match strip_prefix (py "null") s with
  | Some rest => Scanned PyNone rest
  | None =>
  match strip_prefix (py "true") s with
  | Some rest => Scanned (PyBool true) rest
  | None =>
  match strip_prefix (py "false") s with
  | Some rest => Scanned (PyBool false) rest
  | None =>
  match strip_prefix (py "NaN") s with
  | Some rest => Scanned (PyFloat (py "NaN")) rest
  | None =>
  match strip_prefix (py "Infinity") s with
  | Some rest => Scanned (PyFloat (py "Infinity")) rest
  | None =>
  match strip_prefix (py "-Infinity") s with
  | Some rest => Scanned (PyFloat (py "-Infinity")) rest
  | None => match_number s
  end end end end end end.

(** [scan_once] with the object and array loops.  [fuel] bounds the
    nesting of calls; [loads] below supplies enough of it. *)
Fixpoint scan_once (fuel : nat) (s : pystr) : scan value :=
  match fuel with
  | O => Exhausted
  | S fuel' =>
      match s with
      | [] => Invalid
      | c :: s1 =>
          if c =? 34 then scan_map PyStr (scanstring s1)
          else if c =? chr "{" then
            match skip_ws s1 with
            | c2 :: s2 =>
                if c2 =? chr "}" then Scanned (PyDict []) s2
                else JSONObject fuel' (c2 :: s2) []
            | [] => Invalid
            end
          else if c =? chr "[" then
            match skip_ws s1 with
            | c2 :: s2 =>
                if c2 =? chr "]" then Scanned (PyList []) s2
                else JSONArray fuel' (c2 :: s2) []
            | [] => Invalid
            end
          else scan_atom s
      end
  end

with JSONObject (fuel : nat) (s : pystr) (acc : list (pystr * value))
  : scan value :=
  match fuel with
  | O => Exhausted
  | S fuel' =>
      match s with
      | q :: s1 =>
          if q =? 34 then
            match scanstring s1 with
            | Scanned key s2 =>
                match skip_ws s2 with
                | colon :: s3 =>
                    if colon =? chr ":" then
                      match scan_once fuel' (skip_ws s3) with
                      | Scanned v s4 =>
                          match skip_ws s4 with
                          | d :: s5 =>
                              if d =? chr "}"
                              then Scanned (PyDict (rev ((key, v) :: acc))) s5
                              else if d =? chr ","
                              then JSONObject fuel' (skip_ws s5)
                                              ((key, v) :: acc)
                              else Invalid
                          | [] => Invalid
                          end
                      | Invalid => Invalid
                      | Exhausted => Exhausted
                      end
                    else Invalid
                | [] => Invalid
                end
            | Invalid => Invalid
            | Exhausted => Exhausted
            end
          else Invalid
      | [] => Invalid
      end
  end

with JSONArray (fuel : nat) (s : pystr) (acc : list value) : scan value :=
  match fuel with
  | O => Exhausted
  | S fuel' =>
      match scan_once fuel' s with
      | Scanned v s1 =>
          match skip_ws s1 with
          | d :: s2 =>
              if d =? chr "]" then Scanned (PyList (rev (v :: acc))) s2
              else if d =? chr ","
              then JSONArray fuel' (skip_ws s2) (v :: acc)
              else Invalid
          | [] => Invalid
          end
      | Invalid => Invalid
      | Exhausted => Exhausted
      end
  end.

(** [json.loads(s)]: one value between optional white space, nothing
    after it.  [None] is [JSONDecodeError]. *)
Definition loads (s : pystr) : option value :=
  match scan_once (S (2 * List.length s)) (skip_ws s) with
  | Scanned v rest =>
      match skip_ws rest with
      | [] => Some v
      | _ :: _ => None
      end
  | Invalid => None
  | Exhausted => None
  end.

Fixpoint str_eqb (a b : pystr) : bool :=
  match a, b with
  | [], [] => true
  | x :: a', y :: b' => (x =? y) && str_eqb a' b'
  | _, _ => false
  end.

Fixpoint startswith (p s : pystr) : bool :=
  match p, s with
  | [], _ => true
  | a :: p', c :: s' => (a =? c) && startswith p' s'
  | _ :: _, [] => false
  end.

Fixpoint is_substring (p s : pystr) : bool :=
  startswith p s ||
  match s with
  | [] => false
  | _ :: s' => is_substring p s'
  end.

(** [needle in v] for a [str] needle: key membership on a dict, element
    equality on a list, substring on a str; [None] is the [TypeError]
    Python raises when [v] is an int, a float, a bool or None. *)
Definition contains (needle : pystr) (v : value) : option bool :=
  match v with
  | PyDict items => Some (existsb (fun kv => str_eqb (fst kv) needle) items)
  | PyList elems =>
      Some (existsb (fun x => match x with
                              | PyStr s => str_eqb s needle
                              | _ => false
                              end) elems)
  | PyStr s => Some (is_substring needle s)
  | PyNone | PyBool _ | PyInt _ | PyFloat _ => None
  end.

(** A scan of [s] that did not run out of fuel and, when it succeeded,
    consumed something. *)
Definition progress (r : scan value) (s : pystr) : Prop :=
  r <> Exhausted /\
  forall v rest, r = Scanned v rest -> (List.length rest < List.length s)%nat.

End Json.

(** ** Exceptions, actions and the monad of the embedding *)

(** The exception classes that occur in the module. *)
Inductive exn : Type :=
| OSError (strerror : string)
| UnicodeDecodeError
| JSONDecodeError
| TypeError
| KeyboardInterrupt.

Inductive level : Type := INFO | WARNING | ERROR.

(** An argument of a log call; the logger formats lazily, so a record is
    its level, its format string and its arguments. *)
Inductive arg : Type :=
| AStr (s : string)
| AText (t : pystr)
| AInt (z : Z)
| AExc (e : exn).

(** What the program does to the outside: log records and calls on the
    two paho clients, [rabbitmq_client] (destination) and
    [mosquitto_client] (source). *)
Inductive action : Type :=
| Log (lvl : level) (fmt : string) (args : list arg)
| Rabbitmq_username_pw_set (username password : string)
| Rabbitmq_connect (host : string) (port keepalive : Z)
| Rabbitmq_loop_start
| Rabbitmq_publish (topic : string) (payload : pystr) (qos : Z)
| Rabbitmq_loop_stop
| Rabbitmq_disconnect
| Mosquitto_connect (host : string) (port keepalive : Z)
| Mosquitto_subscribe (topic : string)
| Mosquitto_loop_forever
| Mosquitto_disconnect.

Inductive outcome (A : Type) : Type :=
| Returns (a : A)
| Raises (e : exn).
Arguments Raises {A}.

(** A computation: the actions it performed, in order, and how it ended. *)
Definition Py (A : Type) : Type := (list action * outcome A)%type.

Definition trace {A} (m : Py A) : list action := fst m.
Definition result {A} (m : Py A) : outcome A := snd m.

Definition ret {A} (a : A) : Py A := ([], Returns a).
Definition raise {A} (e : exn) : Py A := ([], Raises e).
Definition act (a : action) : Py unit := ([a], Returns tt).

Definition bind {A B} (m : Py A) (k : A -> Py B) : Py B :=
  match m with
  | (t, Returns a) => let (t', r) := k a in (t ++ t', r)
  | (t, Raises e) => (t, Raises e)
  end.

Declare Scope py_scope.
Delimit Scope py_scope with py.
Notation "x <- m ;; k" := (bind m (fun x => k))
  (at level 61, m at next level, right associativity) : py_scope.
Notation "m ;; k" := (bind m (fun _ => k))
  (at level 61, right associativity) : py_scope.

(** [try: m  except <classes>: h].  The handler answers [None] for an
    exception its [except] clauses do not name, which then propagates. *)
Definition try_except {A} (m : Py A) (handler : exn -> option (Py A)) : Py A :=
  match m with
  | (t, Raises e) =>
      match handler e with
      | Some h => let (t', r) := h in (t ++ t', r)
      | None => m
      end
  | (_, Returns _) => m
  end.

(** [try: m  finally: f].  [f] always runs; what it raises replaces the
    outcome of [m]. *)
Definition try_finally {A} (m : Py A) (f : Py unit) : Py A :=
  match m, f with
  | (t, r), (t', Returns _) => (t ++ t', r)
  | (t, _), (t', Raises e) => (t ++ t', Raises e)
  end.

(** A Python value or the exception raised instead of it. *)
Definition or_raise {A} (o : option A) (e : exn) : Py A :=
  match o with
  | Some a => ret a
  | None => raise e
  end.

Definition logger_info (fmt : string) (args : list arg) : Py unit :=
  act (Log INFO fmt args).
Definition logger_warning (fmt : string) (args : list arg) : Py unit :=
  act (Log WARNING fmt args).
Definition logger_error (fmt : string) (args : list arg) : Py unit :=
  act (Log ERROR fmt args).

(** ** The module *)

Local Open Scope string_scope.
Local Open Scope Z_scope.
Local Open Scope py_scope.

(** The configuration read from the environment at import. *)
Record config : Type := {
  MOSQUITTO_HOST : string;
  MOSQUITTO_PORT : Z;
  RABBITMQ_HOST : string;
  RABBITMQ_PORT : Z;
  RABBITMQ_USER : string;
  RABBITMQ_PASS : string;
  RFID_TOPIC : string
}.

(** The defaults of the [os.environ.get] calls. *)
Definition default_config : config := {|
  MOSQUITTO_HOST := "localhost";
  MOSQUITTO_PORT := 1883;
  RABBITMQ_HOST := "localhost";
  RABBITMQ_PORT := 1883;
  RABBITMQ_USER := "guest";
  RABBITMQ_PASS := "guest";
  RFID_TOPIC := "rfid/scan"
|}.

(** paho's [MQTTMessage], as [on_message] receives it. *)
Record MQTTMessage : Type := {
  topic : string;
  payload : bytes;
  qos : Z
}.

(** paho's [MQTTMessageInfo], the result of [publish]. *)
Record MQTTMessageInfo : Type := {
  rc : Z;
  mid : Z
}.

Definition MQTT_ERR_SUCCESS : Z := 0.

(** *** The outside world

    The result of each [connect] call, and the callbacks [loop_forever]
    makes before Ctrl+C; a [Message] carries what [publish] answers when
    the handler calls it. *)
Inductive connect_result : Type :=
| Connected
| ConnectFails (strerror : string).

Inductive callback : Type :=
| Connack (rc : Z)
| Message (msg : MQTTMessage) (info : MQTTMessageInfo)
| Disconnect (rc : Z).

Record world : Type := {
  rabbitmq_connect_result : connect_result;
  mosquitto_connect_result : connect_result;
  dispatched : list callback
}.

Definition client_connect (call : action) (r : connect_result) : Py unit :=
  act call ;;
  match r with
  | Connected => ret tt
  | ConnectFails strerror => raise (OSError strerror)
  end.

(** [rabbitmq_client.publish(topic, payload, qos=qos)], answered [info]. *)
Definition rabbitmq_publish (topic : string) (payload : pystr) (qos : Z)
    (info : MQTTMessageInfo) : Py MQTTMessageInfo :=
  act (Rabbitmq_publish topic payload qos) ;;
  ret info.

(** Module level: [rabbitmq_client.username_pw_set(...)]. *)
Definition module_init (cfg : config) : Py unit :=
  act (Rabbitmq_username_pw_set (RABBITMQ_USER cfg) (RABBITMQ_PASS cfg)).

Definition _connect_rabbitmq (cfg : config) (r : connect_result) : Py unit :=
  try_except
    (client_connect
       (Rabbitmq_connect (RABBITMQ_HOST cfg) (RABBITMQ_PORT cfg) 60) r)
    (fun exc =>
       match exc with
       | OSError _ =>
           Some (logger_error "Cannot connect to RabbitMQ at %s:%s – %s"
                   [AStr (RABBITMQ_HOST cfg); AInt (RABBITMQ_PORT cfg);
                    AExc exc] ;;
                 raise exc)
       | _ => None
       end) ;;
  act Rabbitmq_loop_start ;;
  logger_info "Connected to RabbitMQ MQTT at %s:%s"
    [AStr (RABBITMQ_HOST cfg); AInt (RABBITMQ_PORT cfg)].

Definition on_connect (cfg : config) (rc : Z) : Py unit :=
  if rc =? 0 then
    logger_info "Connected to Mosquitto at %s:%s – subscribing to '%s'"
      [AStr (MOSQUITTO_HOST cfg); AInt (MOSQUITTO_PORT cfg);
       AStr (RFID_TOPIC cfg)] ;;
    act (Mosquitto_subscribe (RFID_TOPIC cfg))
  else
    logger_error "Failed to connect to Mosquitto, return code %s" [AInt rc].

Definition on_message (cfg : config) (msg : MQTTMessage)
    (info : MQTTMessageInfo) : Py unit :=
  payload_str <- or_raise (Utf8.decode (payload msg)) UnicodeDecodeError ;;
  logger_info "Received on '%s': %s" [AStr (topic msg); AText payload_str] ;;
  try_except
    (payload <- or_raise (Json.loads payload_str) JSONDecodeError ;;
     has_tag <- or_raise (Json.contains (py "tag_id") payload) TypeError ;;
     if negb has_tag
     then logger_warning "Payload missing 'tag_id' field – forwarding anyway" []
     else ret tt)
    (fun exc =>
       match exc with
       | JSONDecodeError =>
           Some (logger_warning
                   "Payload is not valid JSON – forwarding as-is" [])
       | _ => None
       end) ;;
  result <- rabbitmq_publish (RFID_TOPIC cfg) payload_str 1 info ;;
  if rc result =? MQTT_ERR_SUCCESS
  then logger_info "Forwarded to RabbitMQ (mid=%s)" [AInt (mid result)]
  else logger_error "Failed to publish to RabbitMQ, rc=%s" [AInt (rc result)].

Definition on_disconnect (rc : Z) : Py unit :=
  if negb (rc =? 0)
  then logger_warning
         "Unexpected disconnect from Mosquitto (rc=%s) – reconnecting…"
         [AInt rc]
  else ret tt.

(** The callbacks [main] installs on [mosquitto_client]. *)
Definition handle (cfg : config) (cb : callback) : Py unit :=
  match cb with
  | Connack rc => on_connect cfg rc
  | Message msg info => on_message cfg msg info
  | Disconnect rc => on_disconnect rc
  end.

Fixpoint dispatch (cfg : config) (cbs : list callback) : Py unit :=
  match cbs with
  | [] => raise KeyboardInterrupt
  | cb :: rest => handle cfg cb ;; dispatch cfg rest
  end.

(** [mosquitto_client.loop_forever()]. *)
Definition loop_forever (cfg : config) (cbs : list callback) : Py unit :=
  act Mosquitto_loop_forever ;;
  dispatch cfg cbs.

Definition main (cfg : config) (w : world) : Py unit :=
  _connect_rabbitmq cfg (rabbitmq_connect_result w) ;;
  try_except
    (client_connect
       (Mosquitto_connect (MOSQUITTO_HOST cfg) (MOSQUITTO_PORT cfg) 60)
       (mosquitto_connect_result w))
    (fun exc =>
       match exc with
       | OSError _ =>
           Some (logger_error "Cannot connect to Mosquitto at %s:%s – %s"
                   [AStr (MOSQUITTO_HOST cfg); AInt (MOSQUITTO_PORT cfg);
                    AExc exc] ;;
                 act Rabbitmq_loop_stop ;;
                 act Rabbitmq_disconnect ;;
                 raise exc)
       | _ => None
       end) ;;
  logger_info "Relay running – press Ctrl+C to stop" [] ;;
  try_finally
    (try_except
       (loop_forever cfg (dispatched w))
       (fun exc =>
          match exc with
          | KeyboardInterrupt => Some (logger_info "Relay stopped by user" [])
          | _ => None
          end))
    (act Mosquitto_disconnect ;;
     act Rabbitmq_loop_stop ;;
     act Rabbitmq_disconnect).

(** The script: the module level, then [main()]. *)
Definition script (cfg : config) (w : world) : Py unit :=
  module_init cfg ;;
  main cfg w.

(** The exit status of the interpreter: 0 when the script runs to its
    end, 1 when an exception leaves it. *)
Definition exit_status {A} (m : Py A) : Z :=
  match result m with
  | Returns _ => 0
  | Raises _ => 1
  end.

(** ** Observations on a run *)

(** The [publish] calls of a trace: topic, payload and QoS, in order. *)
Fixpoint publishes (tr : list action) : list (string * pystr * Z) :=
  match tr with
  | [] => []
  | Rabbitmq_publish t p q :: tr' => (t, p, q) :: publishes tr'
  | _ :: tr' => publishes tr'
  end.

(** What paho puts on the wire for a [str] payload: its UTF-8 encoding. *)
Definition wire_payload (p : pystr) : option bytes := Utf8.encode p.


(** The records [on_message] writes, and its last four lines. *)
Definition received_record (msg : MQTTMessage) (s : pystr) : action :=
  Log INFO "Received on '%s': %s" [AStr (topic msg); AText s].

Definition missing_tag_warning : action :=
  Log WARNING "Payload missing 'tag_id' field – forwarding anyway" [].

Definition not_json_warning : action :=
  Log WARNING "Payload is not valid JSON – forwarding as-is" [].

Definition publish_record (info : MQTTMessageInfo) : action :=
  if rc info =? MQTT_ERR_SUCCESS
  then Log INFO "Forwarded to RabbitMQ (mid=%s)" [AInt (mid info)]
  else Log ERROR "Failed to publish to RabbitMQ, rc=%s" [AInt (rc info)].

Definition forward_actions (cfg : config) (s : pystr) (info : MQTTMessageInfo)
  : list action :=
  [Rabbitmq_publish (RFID_TOPIC cfg) s 1; publish_record info].

(** What [_connect_rabbitmq] does when the connection is established, and
    what the [finally] clause of [main] does. *)
Definition rabbitmq_startup (cfg : config) : list action :=
  [Rabbitmq_connect (RABBITMQ_HOST cfg) (RABBITMQ_PORT cfg) 60;
   Rabbitmq_loop_start;
   Log INFO "Connected to RabbitMQ MQTT at %s:%s"
     [AStr (RABBITMQ_HOST cfg); AInt (RABBITMQ_PORT cfg)]].

Definition shutdown_actions : list action :=
  [Mosquitto_disconnect; Rabbitmq_loop_stop; Rabbitmq_disconnect].

(** ** Inputs used in the examples *)

(** A message on the default topic, delivered at QoS 0 (the QoS of the
    subscription [client.subscribe(RFID_TOPIC)] asks for). *)
Definition scan_message (p : bytes) : MQTTMessage :=
  {| topic := "rfid/scan"; payload := p; qos := 0 |}.

Definition accepted : MQTTMessageInfo := {| rc := MQTT_ERR_SUCCESS; mid := 1 |}.

(** [MQTT_ERR_NO_CONN] is 4. *)
Definition not_connected : MQTTMessageInfo := {| rc := 4; mid := 2 |}.

(** Both connections established, then the given callbacks, then Ctrl+C. *)
Definition running (cbs : list callback) : world :=
  {| rabbitmq_connect_result := Connected;
     mosquitto_connect_result := Connected;
     dispatched := cbs |}.


Definition mosquitto_down : world :=
  {| rabbitmq_connect_result := Connected;
     mosquitto_connect_result := ConnectFails "Connection refused";
     dispatched := [] |}.



(** ** Observations on the receive loop *)

(** The [subscribe] calls of a trace: their topics, in order. *)
Fixpoint subscribes (tr : list action) : list string :=
  match tr with
  | [] => []
  | Mosquitto_subscribe t :: tr' => t :: subscribes tr'
  | _ :: tr' => subscribes tr'
  end.

(** The messages among the callbacks, in order of arrival. *)
Fixpoint messages (cbs : list callback) : list MQTTMessage :=
  match cbs with
  | [] => []
  | Message msg _ :: cbs' => msg :: messages cbs'
  | _ :: cbs' => messages cbs'
  end.

(** The CONNACKs that accept the connection (return code 0). *)
Definition is_accepted_connack (cb : callback) : bool :=
  match cb with
  | Connack rc => rc =? 0
  | _ => false
  end.

(** What goes on the wire for one [publish] call. *)
Definition on_wire (call : string * pystr * Z) : string * option bytes * Z :=
  let '(t, p, q) := call in (t, wire_payload p, q).

(** * The test publisher (test_pub.py)

    The script builds one JSON text with [json.dumps] and publishes it
    to Mosquitto on the topic the relay listens to.  [json.dumps] is
    embedded for the one shape of value the script passes: a dict of a
    str and an int, with the default options ([ensure_ascii] on, the
    separators [", "] and [": "]).  The connection, the wait for the
    acknowledgement and the parsing of the command line are paho's and
    argparse's and are not embedded. *)
Module TestPub.
Local Open Scope N_scope.
Local Open Scope list_scope.

Definition RFID_TOPIC : string := "rfid/scan".

(** One lower-case hexadecimal digit. *)
Definition hexdigit (n : N) : N :=
  if n <? 10 then Json.chr "0" + n else Json.chr "a" + (n - 10).

(** Backslash, u and the four hexadecimal digits of [c]. *)
Definition u_escape (c : N) : pystr :=
  [92; Json.chr "u";
   hexdigit (N.land (N.shiftr c 12) 0xF);
   hexdigit (N.land (N.shiftr c 8) 0xF);
   hexdigit (N.land (N.shiftr c 4) 0xF);
   hexdigit (N.land c 0xF)].

(** The two halves of the surrogate pair of a code point above U+FFFF. *)
Definition high_surrogate (c : N) : N :=
  0xD800 - N.shiftr 0x10000 10 + N.shiftr c 10.
Definition low_surrogate (c : N) : N := 0xDC00 + N.land c 0x3FF.

(** The characters written as they are: printable ASCII except the
    backslash (92) and the double quote (34). *)
Definition S_CHAR (c : N) : bool :=
  (32 <=? c) && (c <=? 126) && negb (c =? 92) && negb (c =? 34).

Definition escape_unichar (c : N) : pystr :=
  if S_CHAR c then [c]
  else if c =? 92 then [92; 92]
  else if c =? 34 then [92; 34]
  else if c =? 8 then [92; Json.chr "b"]
  else if c =? 12 then [92; Json.chr "f"]
  else if c =? 10 then [92; Json.chr "n"]
  else if c =? 13 then [92; Json.chr "r"]
  else if c =? 9 then [92; Json.chr "t"]
  else if 0x10000 <=? c
       then u_escape (high_surrogate c) ++ u_escape (low_surrogate c)
       else u_escape c.

(** A str between double quotes, escaped to ASCII. *)
Definition encode_basestring_ascii (s : pystr) : pystr :=
  34 :: flat_map escape_unichar s ++ [34].

(** The decimal digits of an unsigned number. *)
Fixpoint digits (d : Decimal.uint) : pystr :=
  match d with
  | Decimal.Nil => []
  | Decimal.D0 l => Json.chr "0" :: digits l
  | Decimal.D1 l => Json.chr "1" :: digits l
  | Decimal.D2 l => Json.chr "2" :: digits l
  | Decimal.D3 l => Json.chr "3" :: digits l
  | Decimal.D4 l => Json.chr "4" :: digits l
  | Decimal.D5 l => Json.chr "5" :: digits l
  | Decimal.D6 l => Json.chr "6" :: digits l
  | Decimal.D7 l => Json.chr "7" :: digits l
  | Decimal.D8 l => Json.chr "8" :: digits l
  | Decimal.D9 l => Json.chr "9" :: digits l
  end.

(** [repr] of an int: its decimal digits, after a minus sign when it is
    negative. *)
Definition repr_int (z : Z) : pystr :=
  match Z.to_int z with
  | Decimal.Pos d => digits d
  | Decimal.Neg d => Json.chr "-" :: digits d
  end.

(** [json.dumps({"tag_id": tag, "timestamp": timestamp})]. *)
Definition dumps_scan (tag : pystr) (timestamp : Z) : pystr :=
  py "{" ++ encode_basestring_ascii (py "tag_id") ++ py ": "
  ++ encode_basestring_ascii tag ++ py ", "
  ++ encode_basestring_ascii (py "timestamp") ++ py ": "
  ++ repr_int timestamp ++ py "}".


(** A str whose code points are all in range and in which no high
    surrogate is followed by a low surrogate. *)
Fixpoint no_surrogate_pair (s : pystr) : bool :=
  match s with
  | c :: s' =>
      match s' with
      | d :: _ =>
          negb (Json.is_high_surrogate c && Json.is_low_surrogate d)
      | [] => true
      end && no_surrogate_pair s'
  | [] => true
  end.

Definition code_points (s : pystr) : bool :=
  forallb (fun c => c <? 0x110000) s.

(** The text [s3] does not begin with the escape of a low surrogate:
    [scanstring], having read the escape of a high surrogate, does not
    join it to what follows. *)
Definition not_a_low_escape (s3 : pystr) : Prop :=
  forall b v e1 e2 e3 e4 s4,
    s3 = b :: v :: e1 :: e2 :: e3 :: e4 :: s4 ->
    b = 92 -> v = Json.chr "u" ->
    exists u2,
      Json.hex4 e1 e2 e3 e4 = Some u2 /\ Json.is_low_surrogate u2 = false.

End TestPub.

(** * Properties *)

Local Open Scope list_scope.

(** ** The UTF-8 codec *)
Section Utf8Facts.
Local Open Scope N_scope.

Lemma byte_of_to_N (b : byte) (n : N) : n = Byte.to_N b -> Utf8.byte_of n = b.
Proof. intros ->. unfold Utf8.byte_of. now rewrite Byte.of_to_N. Qed.

Lemma between_spec lo hi n : Utf8.between lo hi n = true <-> lo <= n <= hi.
Proof. unfold Utf8.between. rewrite andb_true_iff, !N.leb_le. tauto. Qed.

Lemma encode_cons c s bc bs :
  Utf8.encode_char c = Some bc -> Utf8.encode s = Some bs ->
  Utf8.encode (c :: s) = Some (bc ++ bs).
Proof. intros H1 H2. simpl. now rewrite H1, H2. Qed.

Ltac inv_map H :=
  match type of H with
  | option_map _ ?d = Some _ =>
      let s' := fresh "s'" in
      destruct d as [s'|] eqn:?; [ simpl in H; injection H as <- | discriminate H ]
  end.

Lemma utf8_decode_encode_bounded :
  forall n bs, (List.length bs <= n)%nat ->
  forall s, Utf8.decode bs = Some s -> Utf8.encode s = Some bs.
Proof.
  induction n as [|n IH]; intros bs Hlen s Hdec.
  - destruct bs; [|simpl in Hlen; lia]. simpl in Hdec. now injection Hdec as <-.
  - destruct bs as [|b0 r0]; [simpl in Hdec; now injection Hdec as <-|].
    cbn [Utf8.decode] in Hdec. cbv zeta in Hdec.
    pose proof (Byte.to_N_bounded b0) as B0.
    destruct (Byte.to_N b0 <? 0x80) eqn:E1.
    { inv_map Hdec. apply N.ltb_lt in E1.
      change (b0 :: r0) with ([b0] ++ r0). apply encode_cons.
      - unfold Utf8.encode_char. rewrite (proj2 (N.ltb_lt _ _) E1).
        now rewrite (byte_of_to_N b0).
      - apply IH; [simpl in Hlen; lia | assumption]. }
    apply N.ltb_ge in E1.
    destruct (Utf8.between 0xC2 0xDF (Byte.to_N b0)) eqn:E2.
    { apply between_spec in E2.
      destruct r0 as [|b1 r1]; [discriminate|].
      destruct (Utf8.is_cont (Byte.to_N b1)) eqn:C1; [|discriminate].
      apply between_spec in C1. inv_map Hdec.
      change (b0 :: b1 :: r1) with ([b0; b1] ++ r1). apply encode_cons.
      - unfold Utf8.encode_char.
        set (c := (Byte.to_N b0 - 192) * 64 + (Byte.to_N b1 - 128)).
        assert (Hc : 0x80 <= c < 0x800) by (unfold c; lia).
        destruct (c <? 0x80) eqn:X1; [apply N.ltb_lt in X1; lia|].
        destruct (c <? 0x800) eqn:X2; [|apply N.ltb_ge in X2; lia].
        f_equal. f_equal; [|f_equal]; apply byte_of_to_N; unfold c; div_lia.
      - apply IH; [simpl in Hlen; lia | assumption]. }
    destruct (Utf8.between 0xE0 0xEF (Byte.to_N b0)) eqn:E3.
    { apply between_spec in E3.
      destruct r0 as [|b1 [|b2 r2]]; try discriminate.
      destruct (Utf8.second_of_3 (Byte.to_N b0) (Byte.to_N b1)) eqn:S1; [|discriminate].
      destruct (Utf8.is_cont (Byte.to_N b2)) eqn:C2; [|discriminate].
      simpl andb in Hdec. cbv iota in Hdec.
      apply between_spec in C2. unfold Utf8.second_of_3 in S1. apply between_spec in S1.
      inv_map Hdec.
      change (b0 :: b1 :: b2 :: r2) with ([b0; b1; b2] ++ r2). apply encode_cons.
      - unfold Utf8.encode_char.
        set (c := (Byte.to_N b0 - 224) * 4096 + (Byte.to_N b1 - 128) * 64 + (Byte.to_N b2 - 128)).
        assert (Hc : 0x800 <= c < 0x10000 /\ ~ (0xD800 <= c <= 0xDFFF)).
        { unfold c. destruct (N.eqb_spec (Byte.to_N b0) 0xE0), (N.eqb_spec (Byte.to_N b0) 0xED); lia. }
        destruct (c <? 0x80) eqn:X1; [apply N.ltb_lt in X1; lia|].
        destruct (c <? 0x800) eqn:X2; [apply N.ltb_lt in X2; lia|].
        destruct (c <? 0x10000) eqn:X3; [|apply N.ltb_ge in X3; lia].
        destruct (Utf8.between 0xD800 0xDFFF c) eqn:X4; [apply between_spec in X4; lia|].
        assert (Hb1 : 0x80 <= Byte.to_N b1 <= 0xBF).
        { destruct (N.eqb_spec (Byte.to_N b0) 0xE0), (N.eqb_spec (Byte.to_N b0) 0xED); lia. }
        f_equal. f_equal; [|f_equal; [|f_equal]]; apply byte_of_to_N; unfold c; div_lia.
      - apply IH; [simpl in Hlen; lia | assumption]. }
    destruct (Utf8.between 0xF0 0xF4 (Byte.to_N b0)) eqn:E4; [|discriminate].
    apply between_spec in E4.
    destruct r0 as [|b1 [|b2 [|b3 r3]]]; try discriminate.
    destruct (Utf8.second_of_4 (Byte.to_N b0) (Byte.to_N b1)) eqn:S1; [|discriminate].
    destruct (Utf8.is_cont (Byte.to_N b2)) eqn:C2; [|discriminate].
    destruct (Utf8.is_cont (Byte.to_N b3)) eqn:C3; [|discriminate].
    simpl andb in Hdec. cbv iota in Hdec.
    apply between_spec in C2. apply between_spec in C3.
    unfold Utf8.second_of_4 in S1. apply between_spec in S1.
    inv_map Hdec.
    change (b0 :: b1 :: b2 :: b3 :: r3) with ([b0; b1; b2; b3] ++ r3). apply encode_cons.
    + unfold Utf8.encode_char.
      set (c := (Byte.to_N b0 - 240) * 262144 + (Byte.to_N b1 - 128) * 4096
                + (Byte.to_N b2 - 128) * 64 + (Byte.to_N b3 - 128)).
      assert (Hb1 : 0x80 <= Byte.to_N b1 <= 0xBF).
      { destruct (N.eqb_spec (Byte.to_N b0) 0xF0), (N.eqb_spec (Byte.to_N b0) 0xF4); lia. }
      assert (Hc : 0x10000 <= c < 0x110000).
      { unfold c. destruct (N.eqb_spec (Byte.to_N b0) 0xF0), (N.eqb_spec (Byte.to_N b0) 0xF4); lia. }
      destruct (c <? 0x80) eqn:X1; [apply N.ltb_lt in X1; lia|].
      destruct (c <? 0x800) eqn:X2; [apply N.ltb_lt in X2; lia|].
      destruct (c <? 0x10000) eqn:X3; [apply N.ltb_lt in X3; lia|].
      destruct (c <? 0x110000) eqn:X5; [|apply N.ltb_ge in X5; lia].
      f_equal. f_equal; [|f_equal; [|f_equal; [|f_equal]]]; apply byte_of_to_N; unfold c; div_lia.
    + apply IH; [simpl in Hlen; lia | assumption].
Qed.








(** Decoding then encoding gives the bytes back. *)
Lemma utf8_decode_encode bs s :
  Utf8.decode bs = Some s -> Utf8.encode s = Some bs.
Proof. apply (@utf8_decode_encode_bounded (List.length bs)). apply le_n. Qed.

End Utf8Facts.

(** ** The JSON scanner: enough fuel *)
Section JsonFacts.
Import Json.

Lemma skip_ws_length s : (List.length (skip_ws s) <= List.length s)%nat.
Proof. induction s as [|c s IH]; simpl; [lia|]. destruct (is_ws c); simpl; lia. Qed.

Lemma scan_map_scanned {A B} (f : A -> B) r b rest :
  scan_map f r = Scanned b rest -> exists a, r = Scanned a rest /\ b = f a.
Proof. destruct r; simpl; intros H; inversion H; subst; eauto. Qed.

Lemma scan_map_exhausted {A B} (f : A -> B) r :
  scan_map f r = Exhausted -> r = Exhausted.
Proof. destruct r; simpl; intros H; congruence. Qed.

Lemma scanstring_shorter :
  forall n s, (List.length s <= n)%nat ->
  scanstring s <> Exhausted /\
  forall k rest, scanstring s = Scanned k rest -> (List.length rest < List.length s)%nat.
Proof.
  induction n as [|n IH]; intros s Hn.
  - destruct s; [|simpl in Hn; lia]. simpl. split; [discriminate|intros; discriminate].
  - destruct s as [|c s1]; [simpl; split; [discriminate|intros; discriminate]|].
    simpl in Hn.
    assert (Hsub : forall t (f : pystr -> pystr), (List.length t <= n)%nat ->
       scan_map f (scanstring t) <> Exhausted /\
       forall k rest, scan_map f (scanstring t) = Scanned k rest -> (List.length rest < List.length t)%nat).
    { intros t f Ht. destruct (@IH t Ht) as [H1 H2]. split.
      - intros E. apply scan_map_exhausted in E. contradiction.
      - intros k rest E. apply scan_map_scanned in E. destruct E as (a & E & _). eauto. }
    cbn [scanstring].
    destruct (c =? 34)%N; [split; [discriminate | intros k rest H; inversion H; subst; simpl; lia]|].
    destruct (c =? 92)%N.
    + destruct s1 as [|e s2]; [split; [discriminate|intros; discriminate]|].
      simpl in Hn.
      destruct (e =? chr "u")%N.
      * destruct s2 as [|d1 [|d2 [|d3 [|d4 s3]]]]; try (split; [discriminate|intros; discriminate]).
        simpl in Hn.
        destruct (hex4 d1 d2 d3 d4); [|split; [discriminate|intros; discriminate]].
        assert (H3 : forall (f : pystr -> pystr), scan_map f (scanstring s3) <> Exhausted /\
           forall k rest, scan_map f (scanstring s3) = Scanned k rest ->
             (List.length rest < List.length (c :: e :: d1 :: d2 :: d3 :: d4 :: s3))%nat).
        { intros f. destruct (@Hsub s3 f ltac:(lia)) as [H1 H2]. split; [assumption|].
          intros k rest E. apply H2 in E. simpl. lia. }
        destruct s3 as [|b [|v [|e1 [|e2 [|e3 [|e4 s4]]]]]]; try apply H3.
        destruct (is_high_surrogate n0 && (b =? 92)%N && (v =? chr "u")%N); [|apply H3].
        destruct (hex4 e1 e2 e3 e4); [|split; [discriminate|intros; discriminate]].
        destruct (is_low_surrogate n1); [|apply H3].
        simpl in Hn. destruct (@Hsub s4 (cons (join_surrogates n0 n1)) ltac:(lia)) as [H1 H2].
        split; [assumption|]. intros k rest E. apply H2 in E. simpl. lia.
      * destruct (escape_char e); [|split; [discriminate|intros; discriminate]].
        destruct (@Hsub s2 (cons n0) ltac:(lia)) as [H1 H2].
        split; [assumption|]. intros k rest E. apply H2 in E. simpl. lia.
    + destruct (c <=? 31)%N; [split; [discriminate|intros; discriminate]|].
      destruct (@Hsub s1 (cons c) ltac:(lia)) as [H1 H2].
      split; [assumption|]. intros k rest E. apply H2 in E. simpl. lia.
Qed.

Lemma span_digits_length s :
  (List.length (snd (span_digits s)) <= List.length s)%nat.
Proof.
  induction s as [|c s IH]; simpl; [lia|].
  destruct (is_digit c); simpl; [|lia].
  destruct (span_digits s); simpl in *; lia.
Qed.

Lemma strip_prefix_length p s rest :
  strip_prefix p s = Some rest ->
  (List.length rest + List.length p = List.length s)%nat.
Proof.
  revert s; induction p as [|a p IH]; intros s H; simpl in H.
  - injection H as <-. simpl. lia.
  - destruct s as [|c s]; [discriminate|].
    destruct (a =? c)%N; [|discriminate]. apply IH in H. simpl. lia.
Qed.

Lemma take_sign_length s :
  (List.length (snd (take_sign s)) <= List.length s)%nat.
Proof.
  destruct s as [|c s']; [simpl; lia|]. unfold take_sign.
  destruct (c =? chr "-")%N; simpl; lia.
Qed.

Lemma take_int_length s :
  fst (take_int s) = [] \/
  (List.length (snd (take_int s)) < List.length s)%nat.
Proof.
  destruct s as [|c s']; [left; reflexivity|]. unfold take_int.
  destruct (c =? chr "0")%N; [right; simpl; lia|].
  destruct (is_digit c); [|left; reflexivity].
  right. pose proof (span_digits_length s') as L.
  destruct (span_digits s'); simpl in *; lia.
Qed.

Lemma take_frac_length s :
  (List.length (snd (take_frac s)) <= List.length s)%nat.
Proof.
  destruct s as [|dot [|d s']]; try (simpl; lia). unfold take_frac.
  destruct ((dot =? chr ".")%N && is_digit d)%bool; [|simpl; lia].
  pose proof (span_digits_length s') as L.
  destruct (span_digits s'); simpl in *; lia.
Qed.

Lemma take_exp_length s :
  (List.length (snd (take_exp s)) <= List.length s)%nat.
Proof.
  destruct s as [|e s']; [simpl; lia|]. unfold take_exp.
  destruct ((e =? chr "e")%N || (e =? chr "E")%N)%bool; [|simpl; lia].
  destruct s' as [|g t].
  - simpl. lia.
  - destruct ((g =? chr "-")%N || (g =? chr "+")%N)%bool.
    + pose proof (span_digits_length t) as L.
      destruct (span_digits t) as [[|d0 ds] rest]; simpl in *; lia.
    + pose proof (span_digits_length (g :: t)) as L.
      destruct (span_digits (g :: t)) as [[|d0 ds] rest]; simpl in *; lia.
Qed.

Lemma match_number_shorter s :
  match_number s <> Exhausted /\
  forall v rest, match_number s = Scanned v rest ->
    (List.length rest < List.length s)%nat.
Proof.
  unfold match_number.
  pose proof (take_sign_length s) as Hp.
  destruct (take_sign s) as [sign s1]. simpl in Hp.
  pose proof (take_int_length s1) as Hq.
  destruct (take_int s1) as [intpart s2]. simpl in Hq.
  destruct intpart as [|i0 intpart]; [split; [discriminate|intros; discriminate]|].
  destruct Hq as [Hq|Hq]; [discriminate|].
  pose proof (take_frac_length s2) as Hf.
  destruct (take_frac s2) as [frac s3]. simpl in Hf.
  pose proof (take_exp_length s3) as Hx.
  destruct (take_exp s3) as [expo s4]. simpl in Hx.
  split.
  - destruct frac, expo; discriminate.
  - intros v rest H.
    assert (rest = s4) by (destruct frac, expo; inversion H; reflexivity).
    subst rest. lia.
Qed.

Lemma scan_atom_shorter s :
  scan_atom s <> Exhausted /\
  forall v rest, scan_atom s = Scanned v rest ->
    (List.length rest < List.length s)%nat.
Proof.
  unfold scan_atom.
  repeat match goal with
  | |- context [strip_prefix ?p s] =>
      let E := fresh "E" in
      destruct (strip_prefix p s) eqn:E;
      [ apply strip_prefix_length in E; split;
        [ discriminate
        | intros v rest H; inversion H; subst; cbn in E; lia ] | ]
  end.
  apply match_number_shorter.
Qed.

Lemma progress_invalid s : progress Invalid s.
Proof. split; [discriminate | intros; discriminate]. Qed.

Lemma progress_scanned v rest s :
  (List.length rest < List.length s)%nat -> progress (Scanned v rest) s.
Proof. intros H. split; [discriminate|]. intros v' r' E. inversion E; subst. assumption. Qed.

Lemma progress_weaken r s s' :
  progress r s -> (List.length s <= List.length s')%nat -> progress r s'.
Proof. intros [H1 H2] L. split; [assumption|]. intros v rest E. apply H2 in E. lia. Qed.

Lemma skip_ws_cons s d t :
  skip_ws s = d :: t -> (List.length t < List.length s)%nat.
Proof. intros E. pose proof (skip_ws_length s) as L. rewrite E in L. simpl in L. lia. Qed.

Lemma scan_fuel :
  forall fuel,
    (forall s, (2 * List.length s < fuel)%nat -> progress (scan_once fuel s) s) /\
    (forall s acc, (2 * List.length s + 1 < fuel)%nat ->
                   progress (JSONObject fuel s acc) s) /\
    (forall s acc, (2 * List.length s + 1 < fuel)%nat ->
                   progress (JSONArray fuel s acc) s).
Proof.
  induction fuel as [|fuel (IHs & IHo & IHa)].
  - repeat split; intros; lia.
  - split; [|split].
    + intros s Hs. cbn [scan_once].
      destruct s as [|c s1]; [apply progress_invalid|].
      simpl in Hs.
      destruct (c =? 34)%N.
      { destruct (@scanstring_shorter (List.length s1) s1 (le_n _)) as [H1 H2].
        split.
        - intros E. apply scan_map_exhausted in E. contradiction.
        - intros v rest E. apply scan_map_scanned in E.
          destruct E as (a & E & _). apply H2 in E. simpl. lia. }
      destruct (c =? chr "{")%N.
      { destruct (skip_ws s1) as [|c2 s2] eqn:W; [apply progress_invalid|].
        pose proof (@skip_ws_cons _ _ _ W) as L.
        destruct (c2 =? chr "}")%N; [apply progress_scanned; simpl; lia|].
        eapply progress_weaken; [apply IHo; simpl; lia | simpl; lia]. }
      destruct (c =? chr "[")%N.
      { destruct (skip_ws s1) as [|c2 s2] eqn:W; [apply progress_invalid|].
        pose proof (@skip_ws_cons _ _ _ W) as L.
        destruct (c2 =? chr "]")%N; [apply progress_scanned; simpl; lia|].
        eapply progress_weaken; [apply IHa; simpl; lia | simpl; lia]. }
      apply scan_atom_shorter.
    + intros s acc Hs. cbn [JSONObject].
      destruct s as [|q s1]; [apply progress_invalid|].
      simpl in Hs.
      destruct (q =? 34)%N; [|apply progress_invalid].
      destruct (@scanstring_shorter (List.length s1) s1 (le_n _)) as [H1 H2].
      destruct (scanstring s1) as [key s2| |] eqn:K;
        [|apply progress_invalid|contradiction].
      specialize (H2 _ _ eq_refl).
      destruct (skip_ws s2) as [|colon s3] eqn:W; [apply progress_invalid|].
      pose proof (@skip_ws_cons _ _ _ W) as L.
      destruct (colon =? chr ":")%N; [|apply progress_invalid].
      pose proof (skip_ws_length s3) as L3.
      destruct (@IHs (skip_ws s3) ltac:(lia)) as [V1 V2].
      destruct (scan_once fuel (skip_ws s3)) as [v s4| |] eqn:V;
        [|apply progress_invalid|contradiction].
      specialize (V2 _ _ eq_refl).
      destruct (skip_ws s4) as [|d s5] eqn:W4; [apply progress_invalid|].
      pose proof (@skip_ws_cons _ _ _ W4) as L4.
      destruct (d =? chr "}")%N; [apply progress_scanned; simpl; lia|].
      destruct (d =? chr ",")%N; [|apply progress_invalid].
      pose proof (skip_ws_length s5) as L5.
      eapply progress_weaken; [apply IHo; lia | simpl; lia].
    + intros s acc Hs. cbn [JSONArray].
      destruct (@IHs s ltac:(lia)) as [V1 V2].
      destruct (scan_once fuel s) as [v s1| |] eqn:V;
        [|apply progress_invalid|contradiction].
      specialize (V2 _ _ eq_refl).
      destruct (skip_ws s1) as [|d s2] eqn:W; [apply progress_invalid|].
      pose proof (@skip_ws_cons _ _ _ W) as L.
      destruct (d =? chr "]")%N; [apply progress_scanned; lia|].
      destruct (d =? chr ",")%N; [|apply progress_invalid].
      pose proof (skip_ws_length s2) as L2.
      eapply progress_weaken; [apply IHa; lia | lia].
Qed.

Lemma loads_never_exhausted s :
  scan_once (S (2 * List.length s)) (skip_ws s) <> Exhausted.
Proof.
  pose proof (skip_ws_length s) as L.
  apply (proj1 (scan_fuel (S (2 * List.length s)))). lia.
Qed.

End JsonFacts.

(** ** The relay *)

#[local] Arguments Json.contains : simpl never.
#[local] Arguments Json.loads : simpl never.
#[local] Arguments Utf8.decode : simpl never.
#[local] Arguments py : simpl never.

(** ** The monad *)

Lemma bind_returns {A B} (m : Py A) (k : A -> Py B) t a :
  m = (t, Returns a) ->
  bind m k = (t ++ trace (k a), result (k a)).
Proof. intros ->. unfold bind, trace, result. now destruct (k a). Qed.

Lemma bind_raises {A B} (m : Py A) (k : A -> Py B) t e :
  m = (t, Raises e) -> bind m k = (t, Raises e).
Proof. now intros ->. Qed.

Lemma publishes_app t1 t2 : publishes (t1 ++ t2) = publishes t1 ++ publishes t2.
Proof.
  induction t1 as [|a t1 IH]; [reflexivity|].
  destruct a; simpl; rewrite ?IH; reflexivity.
Qed.

(** ** [on_message], case by case *)

Lemma on_message_undecodable cfg msg info :
  Utf8.decode (payload msg) = None ->
  on_message cfg msg info = ([], Raises UnicodeDecodeError).
Proof. intros H. unfold on_message. rewrite H. reflexivity. Qed.

Lemma on_message_not_json cfg msg info s :
  Utf8.decode (payload msg) = Some s ->
  Json.loads s = None ->
  on_message cfg msg info =
    (received_record msg s :: not_json_warning :: forward_actions cfg s info,
     Returns tt).
Proof.
  intros H J. unfold on_message. rewrite H. cbn. rewrite J. cbn.
  unfold forward_actions, publish_record. now destruct (rc info =? MQTT_ERR_SUCCESS).
Qed.

Lemma on_message_not_a_container cfg msg info s v :
  Utf8.decode (payload msg) = Some s ->
  Json.loads s = Some v ->
  Json.contains (py "tag_id") v = None ->
  on_message cfg msg info = ([received_record msg s], Raises TypeError).
Proof.
  intros H J C. unfold on_message. rewrite H. cbn. rewrite J. cbn.
  rewrite C. reflexivity.
Qed.

Lemma on_message_tag_absent cfg msg info s v :
  Utf8.decode (payload msg) = Some s ->
  Json.loads s = Some v ->
  Json.contains (py "tag_id") v = Some false ->
  on_message cfg msg info =
    (received_record msg s :: missing_tag_warning :: forward_actions cfg s info,
     Returns tt).
Proof.
  intros H J C. unfold on_message. rewrite H. cbn. rewrite J. cbn.
  rewrite C. cbn.
  unfold forward_actions, publish_record. now destruct (rc info =? MQTT_ERR_SUCCESS).
Qed.

Lemma on_message_tag_present cfg msg info s v :
  Utf8.decode (payload msg) = Some s ->
  Json.loads s = Some v ->
  Json.contains (py "tag_id") v = Some true ->
  on_message cfg msg info =
    (received_record msg s :: forward_actions cfg s info, Returns tt).
Proof.
  intros H J C. unfold on_message. rewrite H. cbn. rewrite J. cbn.
  rewrite C. cbn.
  unfold forward_actions, publish_record. now destruct (rc info =? MQTT_ERR_SUCCESS).
Qed.

(** Every run of [on_message] ends in one of three ways: the payload is
    not UTF-8 and nothing is done; the payload is a JSON number, boolean
    or null and only the receipt is logged; or the text is published,
    once, after the receipt and at most one warning. *)
Lemma on_message_cases cfg msg info :
  (Utf8.decode (payload msg) = None /\
   on_message cfg msg info = ([], Raises UnicodeDecodeError))
  \/
  (exists s, Utf8.decode (payload msg) = Some s /\
    ((exists v, Json.loads s = Some v /\
                Json.contains (py "tag_id") v = None /\
                on_message cfg msg info =
                  ([received_record msg s], Raises TypeError))
     \/
     (exists warnings,
        (warnings = [] \/ warnings = [missing_tag_warning]
         \/ warnings = [not_json_warning]) /\
        on_message cfg msg info =
          (received_record msg s :: warnings ++ forward_actions cfg s info,
           Returns tt)))).
Proof.
  destruct (Utf8.decode (payload msg)) as [s|] eqn:D.
  - right. exists s. split; [reflexivity|].
    destruct (Json.loads s) as [v|] eqn:J.
    + destruct (Json.contains (py "tag_id") v) as [[|]|] eqn:C.
      * right. exists []. split; [auto|].
        apply (on_message_tag_present cfg msg info D J C).
      * right. exists [missing_tag_warning]. split; [auto|].
        apply (on_message_tag_absent cfg msg info D J C).
      * left. exists v. repeat split; try assumption.
        apply (on_message_not_a_container cfg msg info D J C).
    + right. exists [not_json_warning]. split; [auto|].
      apply (on_message_not_json cfg msg info D J).
  - left. split; [reflexivity|]. now apply on_message_undecodable.
Qed.

(** The [publish] calls of one run of [on_message]: none, or exactly one,
    with the configured topic, the decoded text and QoS 1. *)
Lemma on_message_publishes cfg msg info :
  (publishes (trace (on_message cfg msg info)) = [] /\
   exists e, result (on_message cfg msg info) = Raises e)
  \/
  (exists s, Utf8.decode (payload msg) = Some s /\
             result (on_message cfg msg info) = Returns tt /\
             publishes (trace (on_message cfg msg info))
               = [(RFID_TOPIC cfg, s, 1)]).
Proof.
  destruct (on_message_cases cfg msg info)
    as [[_ E] | (s & D & [(v & _ & _ & E) | (ws & W & E)])]; rewrite E.
  - left. split; [reflexivity | now exists UnicodeDecodeError].
  - left. split; [reflexivity | now exists TypeError].
  - right. exists s. repeat split; [assumption|].
    unfold trace, forward_actions, publish_record; simpl fst.
    destruct W as [-> | [-> | ->]];
      destruct (rc info =? MQTT_ERR_SUCCESS); reflexivity.
Qed.

(** When [on_message] returns, it has published once, and what paho
    sends for that call is the received payload, byte for byte. *)
Lemma forwarding_fidelity cfg msg info :
  result (on_message cfg msg info) = Returns tt ->
  exists s,
    publishes (trace (on_message cfg msg info)) = [(RFID_TOPIC cfg, s, 1)] /\
    wire_payload s = Some (payload msg).
Proof.
  intros R.
  destruct (on_message_publishes cfg msg info) as [[_ [e E]] | (s & D & _ & P)].
  - rewrite R in E. discriminate.
  - exists s. split; [assumption|]. now apply utf8_decode_encode.
Qed.

(** Whether [on_message] returns depends on the payload alone. *)
Lemma on_message_returns_iff cfg msg info :
  result (on_message cfg msg info) = Returns tt <->
  exists s, Utf8.decode (payload msg) = Some s /\
            forall v, Json.loads s = Some v ->
                      Json.contains (py "tag_id") v <> None.
Proof.
  split.
  - intros R.
    destruct (on_message_cases cfg msg info)
      as [[_ E] | (s & D & [(v & _ & _ & E) | (ws & W & E)])];
      rewrite E in R; try discriminate.
    exists s. split; [assumption|]. intros v J C.
    rewrite (on_message_not_a_container cfg msg info D J C) in E.
    discriminate.
  - intros (s & D & H).
    destruct (on_message_cases cfg msg info)
      as [[D' _] | (s' & D' & [(v & J & C & _) | (ws & _ & E)])].
    + congruence.
    + assert (s' = s) by congruence. subst s'. now apply H in J.
    + now rewrite E.
Qed.

(** A failed publish is logged as an error and nothing else happens:
    the call is the last but one action, the handler returns. *)
Lemma publish_failure_logged cfg msg info :
  result (on_message cfg msg info) = Returns tt ->
  rc info <> MQTT_ERR_SUCCESS ->
  exists pre s,
    trace (on_message cfg msg info) =
      pre ++ [Rabbitmq_publish (RFID_TOPIC cfg) s 1;
              Log ERROR "Failed to publish to RabbitMQ, rc=%s" [AInt (rc info)]]
    /\ publishes pre = [].
Proof.
  intros R F.
  destruct (on_message_cases cfg msg info)
    as [[_ E] | (s & D & [(v & _ & _ & E) | (ws & W & E)])];
    rewrite E in R |- *; try discriminate.
  exists (received_record msg s :: ws), s. unfold trace; simpl fst.
  unfold forward_actions, publish_record.
  destruct (Z.eqb_spec (rc info) MQTT_ERR_SUCCESS) as [?|_]; [contradiction|].
  split; [reflexivity|].
  destruct W as [-> | [-> | ->]]; reflexivity.
Qed.

(** ** Membership, in words *)






(** ** [main], case by case *)

Lemma connect_rabbitmq_fails cfg err :
  _connect_rabbitmq cfg (ConnectFails err) =
    ([Rabbitmq_connect (RABBITMQ_HOST cfg) (RABBITMQ_PORT cfg) 60;
      Log ERROR "Cannot connect to RabbitMQ at %s:%s – %s"
        [AStr (RABBITMQ_HOST cfg); AInt (RABBITMQ_PORT cfg);
         AExc (OSError err)]],
     Raises (OSError err)).
Proof. reflexivity. Qed.

Lemma connect_rabbitmq_succeeds cfg :
  _connect_rabbitmq cfg Connected = (rabbitmq_startup cfg, Returns tt).
Proof. reflexivity. Qed.

Lemma main_rabbitmq_down cfg w err :
  rabbitmq_connect_result w = ConnectFails err ->
  main cfg w =
    ([Rabbitmq_connect (RABBITMQ_HOST cfg) (RABBITMQ_PORT cfg) 60;
      Log ERROR "Cannot connect to RabbitMQ at %s:%s – %s"
        [AStr (RABBITMQ_HOST cfg); AInt (RABBITMQ_PORT cfg);
         AExc (OSError err)]],
     Raises (OSError err)).
Proof. intros H. unfold main. rewrite H. reflexivity. Qed.

Lemma main_mosquitto_down cfg w err :
  rabbitmq_connect_result w = Connected ->
  mosquitto_connect_result w = ConnectFails err ->
  main cfg w =
    (rabbitmq_startup cfg ++
     [Mosquitto_connect (MOSQUITTO_HOST cfg) (MOSQUITTO_PORT cfg) 60;
      Log ERROR "Cannot connect to Mosquitto at %s:%s – %s"
        [AStr (MOSQUITTO_HOST cfg); AInt (MOSQUITTO_PORT cfg);
         AExc (OSError err)];
      Rabbitmq_loop_stop;
      Rabbitmq_disconnect],
     Raises (OSError err)).
Proof. intros H1 H2. unfold main. rewrite H1, H2. reflexivity. Qed.

(** With both connections up, [main] is the start-up, the loop, and the
    [finally] clause; only [KeyboardInterrupt] is caught. *)
Lemma main_running cfg w :
  rabbitmq_connect_result w = Connected ->
  mosquitto_connect_result w = Connected ->
  main cfg w =
    (rabbitmq_startup cfg ++
     [Mosquitto_connect (MOSQUITTO_HOST cfg) (MOSQUITTO_PORT cfg) 60;
      Log INFO "Relay running – press Ctrl+C to stop" []] ++
     trace (loop_forever cfg (dispatched w)) ++
     match result (loop_forever cfg (dispatched w)) with
     | Raises KeyboardInterrupt => [Log INFO "Relay stopped by user" []]
     | _ => []
     end ++ shutdown_actions,
     match result (loop_forever cfg (dispatched w)) with
     | Raises KeyboardInterrupt => Returns tt
     | r => r
     end).
Proof.
  intros H1 H2. unfold main. rewrite H1, H2.
  destruct (loop_forever cfg (dispatched w)) as [t [[]|e]] eqn:L.
  - cbn. reflexivity.
  - destruct e; cbn; rewrite <- ?app_assoc; reflexivity.
Qed.

(** The loop never returns: it ends by an exception. *)
Lemma dispatch_raises cfg cbs :
  exists e, result (dispatch cfg cbs) = Raises e.
Proof.
  induction cbs as [|cb cbs [e IH]]; [now exists KeyboardInterrupt|].
  cbn [dispatch]. destruct (handle cfg cb) as [t [[]|e']] eqn:H.
  - unfold bind. destruct (dispatch cfg cbs) as [t' r']. exists e. exact IH.
  - exists e'. reflexivity.
Qed.

Lemma script_trace cfg w :
  trace (script cfg w) =
    Rabbitmq_username_pw_set (RABBITMQ_USER cfg) (RABBITMQ_PASS cfg)
    :: trace (main cfg w).
Proof. unfold script, module_init, act, bind. now destruct (main cfg w). Qed.

Lemma script_result cfg w : result (script cfg w) = result (main cfg w).
Proof. unfold script, module_init, act, bind. now destruct (main cfg w). Qed.

Lemma exit_status_script cfg w :
  exit_status (script cfg w) = exit_status (main cfg w).
Proof. unfold exit_status. now rewrite script_result. Qed.

(** ** The scenario of the specification and a few runs of the scanner *)

Example scenario_tagged_scan :
  on_message default_config
    (scan_message (b_ (quoted "{'tag_id':'TEST123','timestamp':1700000000}")))
    accepted
  = ([Log INFO "Received on '%s': %s"
        [AStr "rfid/scan";
         AText (py (quoted "{'tag_id':'TEST123','timestamp':1700000000}"))];
      Rabbitmq_publish "rfid/scan"
        (py (quoted "{'tag_id':'TEST123','timestamp':1700000000}")) 1;
      Log INFO "Forwarded to RabbitMQ (mid=%s)" [AInt 1]],
     Returns tt).
Proof. vm_compute. reflexivity. Qed.

Example scenario_publish_refused :
  on_message default_config (scan_message (b_ "hello")) not_connected
  = ([Log INFO "Received on '%s': %s" [AStr "rfid/scan"; AText (py "hello")];
      Log WARNING "Payload is not valid JSON – forwarding as-is" [];
      Rabbitmq_publish "rfid/scan" (py "hello") 1;
      Log ERROR "Failed to publish to RabbitMQ, rc=%s" [AInt 4]],
     Returns tt).
Proof. vm_compute. reflexivity. Qed.

Example loads_tagged_scan :
  Json.loads (py (quoted "{'tag_id':'TEST123','timestamp':1700000000}")) =
    Some (Json.PyDict [(py "tag_id", Json.PyStr (py "TEST123"));
                       (py "timestamp", Json.PyInt 1700000000)]).
Proof. vm_compute. reflexivity. Qed.

Example loads_plain_text : Json.loads (py "hello") = None.
Proof. vm_compute. reflexivity. Qed.

Example loads_nested :
  Json.loads (py (quoted " [1, -2.5e3, 'a\nb', null, true, {'x': []}] ")) =
    Some (Json.PyList
            [Json.PyInt 1; Json.PyFloat (py "-2.5e3");
             Json.PyStr [97; 10; 98]%N; Json.PyNone; Json.PyBool true;
             Json.PyDict [(py "x", Json.PyList [])]]).
Proof. vm_compute. reflexivity. Qed.

Example loads_escaped_key :
  option_map (Json.contains (py "tag_id"))
    (Json.loads (py (quoted "{'tag_id': 7}"))) = Some (Some true).
Proof. vm_compute. reflexivity. Qed.

Example loads_rejects :
  map (fun t => Json.loads (py (quoted t)))
    ["{'x':1,}"; "[1,]"; "01"; "1."; "1e+"; "-"; "{} x"; EmptyString; "'a"; "{'a' 1}";
     "[[1"; "tru"; "'\q'"; "'\u12'"; "nul"]
  = repeat None 15.
Proof. vm_compute. reflexivity. Qed.

Example loads_accepts_deep_nesting :
  Json.loads (py "[[[[[[[[1]]]]]]]]") <> None.
Proof. vm_compute. discriminate. Qed.

Example utf8_decode_samples :
  Utf8.decode [xe2; x82; xac] = Some [0x20AC]%N /\
  Utf8.decode [xf0; x9f; x98; x80] = Some [0x1F600]%N /\
  Utf8.decode [xff] = None /\
  Utf8.decode [xc0; x80] = None /\
  Utf8.decode [xed; xa0; x80] = None /\
  Utf8.decode [xf4; x90; x80; x80] = None /\
  Utf8.decode [xe2; x82] = None.
Proof. vm_compute. repeat split. Qed.

(** ** The claims *)

(** C1 (forwarding fidelity), evaluated at the payload [1700000000], a
    bare JSON number and valid UTF-8: [on_message] logs the receipt, the
    test ["tag_id" not in payload] raises [TypeError] on the [int], and
    the handler is left before the publish call; nothing is published. *)
Theorem bare_number_payload_not_forwarded (info : MQTTMessageInfo) :
  on_message default_config (scan_message (b_ "1700000000")) info =
    ([Log INFO "Received on '%s': %s"
        [AStr "rfid/scan"; AText (py "1700000000")]],
     Raises TypeError)
  /\ publishes
       (trace (on_message default_config (scan_message (b_ "1700000000")) info))
     = [].
Proof. split; vm_compute; reflexivity. Qed.

(** C2 fails as stated: a message received at QoS 0 is published at
    QoS 1. *)
Lemma qos_not_passed_through :
  exists t p q,
    In (t, p, q)
       (publishes
          (trace (on_message default_config (scan_message (b_ "hello"))
                             accepted)))
    /\ q <> qos (scan_message (b_ "hello")).
Proof.
  exists "rfid/scan", (py "hello"), 1. split.
  - vm_compute. left. reflexivity.
  - vm_compute. discriminate.
Qed.

(** C2, amended: every publish call made by [on_message] uses QoS 1,
    whatever QoS the received message carries. *)
Theorem publish_qos_is_one cfg msg info t p q :
  In (t, p, q) (publishes (trace (on_message cfg msg info))) -> q = 1.
Proof.
  intros H.
  destruct (on_message_publishes cfg msg info) as [[E _] | (s & _ & _ & E)];
    rewrite E in H; simpl in H.
  - contradiction.
  - destruct H as [H|[]]. now injection H as <- <- <-.
Qed.

Lemma publish_qos_is_one_witness :
  In ("rfid/scan", py "hello", 1)
     (publishes
        (trace (on_message default_config (scan_message (b_ "hello"))
                           accepted)))
  /\ 1 = 1.
Proof.
  assert (H : In ("rfid/scan", py "hello", 1)
                 (publishes
                    (trace (on_message default_config
                                       (scan_message (b_ "hello")) accepted))))
    by (vm_compute; left; reflexivity).
  split; [exact H | exact (publish_qos_is_one _ _ _ _ _ _ H)].
Defined.




(** C4 (format errors never drop a message), evaluated at the one-byte
    payload FF, which is not UTF-8: the decode on the first line of
    [on_message] raises [UnicodeDecodeError] outside any [try]; no warning
    is logged and nothing is published. *)
Theorem undecodable_payload_dropped (info : MQTTMessageInfo) :
  Utf8.decode [xff] = None /\
  on_message default_config (scan_message [xff]) info =
    ([], Raises UnicodeDecodeError).
Proof. split; vm_compute; reflexivity. Qed.

(** C5 (missing-field passthrough), evaluated at two valid JSON texts
    without a [tag_id] field.  At [42] the membership test raises
    [TypeError]: no warning, no publish.  At the array [["tag_id"]] the
    test is true of the element: the text is published with no warning. *)
Theorem json_without_tag_field_mishandled (info : MQTTMessageInfo) :
  Json.loads (py "42") = Some (Json.PyInt 42) /\
  on_message default_config (scan_message (b_ "42")) info =
    ([Log INFO "Received on '%s': %s" [AStr "rfid/scan"; AText (py "42")]],
     Raises TypeError) /\
  Json.loads (py (quoted "['tag_id']")) =
    Some (Json.PyList [Json.PyStr (py "tag_id")]) /\
  on_message default_config (scan_message (b_ (quoted "['tag_id']"))) accepted =
    ([Log INFO "Received on '%s': %s"
        [AStr "rfid/scan"; AText (py (quoted "['tag_id']"))];
      Rabbitmq_publish "rfid/scan" (py (quoted "['tag_id']")) 1;
      Log INFO "Forwarded to RabbitMQ (mid=%s)" [AInt 1]],
     Returns tt).
Proof. repeat split; vm_compute; reflexivity. Qed.



(** C7 fails as stated: when Mosquitto refuses the connection (CONNACK
    return code 5), [on_connect] logs an error and returns; the relay
    goes on unsubscribed until Ctrl+C and exits with status 0. *)
Lemma refused_connack_is_not_fatal :
  on_connect default_config 5 =
    ([Log ERROR "Failed to connect to Mosquitto, return code %s" [AInt 5]],
     Returns tt) /\
  exit_status (script default_config (running [Connack 5])) = 0 /\
  ~ In (Mosquitto_subscribe "rfid/scan")
       (trace (script default_config (running [Connack 5]))).
Proof.
  repeat split; try (vm_compute; reflexivity).
  vm_compute. intros H.
  repeat (destruct H as [H|H]; [discriminate H|]). exact H.
Qed.

(** C7, amended: when the connect call to either broker raises [OSError]
    at start-up, the error is logged and it leaves the script, whose exit
    status is 1; when Mosquitto refuses the connection in its CONNACK,
    [on_connect] logs an error, subscribes to nothing and returns, and
    the loop goes on with the callbacks that follow. *)
Theorem connect_error_is_fatal_refusal_is_logged cfg :
  (forall w err,
     rabbitmq_connect_result w = ConnectFails err \/
     (rabbitmq_connect_result w = Connected /\
      mosquitto_connect_result w = ConnectFails err) ->
     (exists fmt args,
        In (Log ERROR fmt (args ++ [AExc (OSError err)]))
           (trace (script cfg w))) /\
     result (script cfg w) = Raises (OSError err) /\
     exit_status (script cfg w) = 1)
  /\
  (forall rc cbs,
     rc <> 0 ->
     on_connect cfg rc =
       ([Log ERROR "Failed to connect to Mosquitto, return code %s"
           [AInt rc]],
        Returns tt) /\
     trace (dispatch cfg (Connack rc :: cbs)) =
       Log ERROR "Failed to connect to Mosquitto, return code %s" [AInt rc]
       :: trace (dispatch cfg cbs) /\
     result (dispatch cfg (Connack rc :: cbs)) = result (dispatch cfg cbs)).
Proof.
  split.
  - intros w err [H | [H1 H2]];
      rewrite script_trace, exit_status_script, script_result.
    + rewrite (main_rabbitmq_down cfg w H). repeat split.
      exists "Cannot connect to RabbitMQ at %s:%s – %s",
             [AStr (RABBITMQ_HOST cfg); AInt (RABBITMQ_PORT cfg)].
      right. right. left. reflexivity.
    + rewrite (main_mosquitto_down cfg w H1 H2). repeat split.
      exists "Cannot connect to Mosquitto at %s:%s – %s",
             [AStr (MOSQUITTO_HOST cfg); AInt (MOSQUITTO_PORT cfg)].
      unfold trace, rabbitmq_startup; simpl.
      do 5 right. left. reflexivity.
  - intros rc cbs H.
    assert (E : on_connect cfg rc =
                  ([Log ERROR "Failed to connect to Mosquitto, return code %s"
                      [AInt rc]],
                   Returns tt)).
    { unfold on_connect.
      destruct (Z.eqb_spec rc 0) as [?|_]; [contradiction | reflexivity]. }
    split; [exact E|].
    cbn [dispatch handle]. rewrite E. unfold bind.
    destruct (dispatch cfg cbs) as [t r]. split; reflexivity.
Qed.

Lemma connect_error_is_fatal_refusal_is_logged_witness :
  (result (script default_config mosquitto_down)
     = Raises (OSError "Connection refused") /\
   exit_status (script default_config mosquitto_down) = 1)
  /\
  on_connect default_config 5 =
    ([Log ERROR "Failed to connect to Mosquitto, return code %s" [AInt 5]],
     Returns tt).
Proof.
  split.
  - exact (proj2 (proj1 (connect_error_is_fatal_refusal_is_logged
                           default_config)
                        mosquitto_down "Connection refused"
                        (or_intror (conj eq_refl eq_refl)))).
  - refine (proj1 (proj2 (connect_error_is_fatal_refusal_is_logged
                            default_config)
                         5 [] _)).
    discriminate.
Defined.

(** C8 (shut-down ordering): when Ctrl+C ends the receive loop, the run
    is the start-up, what the loop did, then the record of the stop, the
    disconnect of the Mosquitto client, and the stop and disconnect of
    the RabbitMQ client, in this order; nothing is published after the
    loop, and the exit status is 0. *)
Theorem shutdown_order cfg w :
  rabbitmq_connect_result w = Connected ->
  mosquitto_connect_result w = Connected ->
  result (loop_forever cfg (dispatched w)) = Raises KeyboardInterrupt ->
  trace (script cfg w) =
    (Rabbitmq_username_pw_set (RABBITMQ_USER cfg) (RABBITMQ_PASS cfg)
     :: rabbitmq_startup cfg ++
        [Mosquitto_connect (MOSQUITTO_HOST cfg) (MOSQUITTO_PORT cfg) 60;
         Log INFO "Relay running – press Ctrl+C to stop" []])
    ++ trace (loop_forever cfg (dispatched w))
    ++ [Log INFO "Relay stopped by user" [];
        Mosquitto_disconnect; Rabbitmq_loop_stop; Rabbitmq_disconnect]
  /\ publishes [Log INFO "Relay stopped by user" [];
                Mosquitto_disconnect; Rabbitmq_loop_stop; Rabbitmq_disconnect]
     = []
  /\ exit_status (script cfg w) = 0.
Proof.
  intros H1 H2 K.
  rewrite script_trace, exit_status_script. unfold exit_status.
  rewrite (main_running cfg w H1 H2), K.
  split; [|split; reflexivity].
  unfold trace at 1, shutdown_actions; simpl fst.
  rewrite <- ?app_assoc. reflexivity.
Qed.

Lemma shutdown_order_witness :
  exit_status
    (script default_config
       (running [Connack 0; Message (scan_message (b_ "hello")) accepted]))
  = 0.
Proof.
  exact (proj2 (proj2 (shutdown_order default_config
     (running [Connack 0; Message (scan_message (b_ "hello")) accepted])
     eq_refl eq_refl eq_refl))).
Defined.

(** C9 (one publish attempt for every message, the relay goes on),
    evaluated at the payload [true]: the handler raises [TypeError] and
    makes no publish attempt; the exception leaves [loop_forever], so the
    message that follows is not handled either, and the script ends with
    exit status 1. *)
Theorem malformed_message_stops_the_relay (info : MQTTMessageInfo) :
  result (on_message default_config (scan_message (b_ "true")) info)
    = Raises TypeError /\
  publishes (trace (on_message default_config (scan_message (b_ "true")) info))
    = [] /\
  publishes
    (trace (script default_config
              (running [Connack 0;
                        Message (scan_message (b_ "true")) info;
                        Message (scan_message (b_ "hello")) accepted])))
    = [] /\
  exit_status
    (script default_config
       (running [Connack 0;
                 Message (scan_message (b_ "true")) info;
                 Message (scan_message (b_ "hello")) accepted]))
    = 1.
Proof. repeat split; vm_compute; reflexivity. Qed.



(** * Further properties of the relay *)

(** ** The message handler *)

(** X1: whenever [on_message] returns, it has made exactly one publish
    call, to [RFID_TOPIC] at QoS 1, and the UTF-8 encoding of the text it
    passed is the received payload, byte for byte. *)
Theorem forwarded_once_byte_for_byte cfg msg info :
  result (on_message cfg msg info) = Returns tt ->
  exists text,
    publishes (trace (on_message cfg msg info)) = [(RFID_TOPIC cfg, text, 1)] /\
    wire_payload text = Some (payload msg).
Proof. apply forwarding_fidelity. Qed.

Lemma forwarded_once_byte_for_byte_witness :
  exists text,
    publishes
      (trace (on_message default_config (scan_message [xe2; x82; xac]) accepted))
      = [("rfid/scan", text, 1)] /\
    wire_payload text = Some [xe2; x82; xac].
Proof.
  exact (@forwarded_once_byte_for_byte default_config
           (scan_message [xe2; x82; xac]) accepted eq_refl).
Defined.








(** X6: the result of the publish call decides the last record and
    nothing else.  When the handler reaches the call, the call is made
    once and is followed by one record: INFO with the message id when
    [rc] is [MQTT_ERR_SUCCESS], ERROR with [rc] otherwise; there is no
    second call, and the handler returns in both cases. *)
Theorem publish_result_is_logged_once cfg msg info :
  result (on_message cfg msg info) = Returns tt ->
  exists before text,
    publishes before = [] /\
    trace (on_message cfg msg info) =
      before ++ [Rabbitmq_publish (RFID_TOPIC cfg) text 1;
                 if rc info =? 0
                 then Log INFO "Forwarded to RabbitMQ (mid=%s)" [AInt (mid info)]
                 else Log ERROR "Failed to publish to RabbitMQ, rc=%s"
                        [AInt (rc info)]].
Proof.
  intros R.
  destruct (on_message_cases cfg msg info)
    as [[_ E] | (s & D & [(v & _ & _ & E) | (ws & W & E)])];
    rewrite E in R |- *; try discriminate.
  exists (received_record msg s :: ws), s. split.
  - destruct W as [-> | [-> | ->]]; reflexivity.
  - unfold trace; simpl fst. rewrite <- app_comm_cons. reflexivity.
Qed.

Lemma publish_result_is_logged_once_witness :
  exists before text,
    publishes before = [] /\
    trace (on_message default_config (scan_message (b_ "hello")) not_connected) =
      before ++ [Rabbitmq_publish "rfid/scan" text 1;
                 Log ERROR "Failed to publish to RabbitMQ, rc=%s" [AInt 4]].
Proof.
  exact (@publish_result_is_logged_once default_config
           (scan_message (b_ "hello")) not_connected eq_refl).
Defined.

(** X7: a disconnect callback only logs: a warning when the disconnect
    was unexpected ([rc] other than 0), nothing when it was asked for;
    it calls neither client and the loop goes on with the callbacks that
    follow. *)
Theorem disconnect_is_only_logged cfg rc cbs :
  trace (dispatch cfg (Disconnect rc :: cbs)) =
    (if rc =? 0 then []
     else [Log WARNING
             "Unexpected disconnect from Mosquitto (rc=%s) – reconnecting…"
             [AInt rc]])
    ++ trace (dispatch cfg cbs)
  /\ result (dispatch cfg (Disconnect rc :: cbs)) = result (dispatch cfg cbs).
Proof.
  cbn [dispatch handle]. unfold on_disconnect.
  destruct (rc =? 0); cbn [negb]; unfold logger_warning, act, ret, bind;
    destruct (dispatch cfg cbs) as [t r]; split; reflexivity.
Qed.

(** ** The callbacks inside the loop *)

Lemma subscribes_app t1 t2 :
  subscribes (t1 ++ t2) = subscribes t1 ++ subscribes t2.
Proof.
  induction t1 as [|a t1 IH]; [reflexivity|].
  destruct a; simpl; rewrite ?IH; reflexivity.
Qed.

(** The two connection callbacks always return; [on_connect] subscribes
    exactly when the CONNACK accepts, and neither publishes. *)
Lemma on_connect_returns cfg rc :
  result (on_connect cfg rc) = Returns tt /\
  publishes (trace (on_connect cfg rc)) = [] /\
  subscribes (trace (on_connect cfg rc)) =
    if rc =? 0 then [RFID_TOPIC cfg] else [].
Proof. unfold on_connect. destruct (rc =? 0); repeat split. Qed.

Lemma on_disconnect_returns rc :
  result (on_disconnect rc) = Returns tt /\
  publishes (trace (on_disconnect rc)) = [] /\
  subscribes (trace (on_disconnect rc)) = [].
Proof. unfold on_disconnect. destruct (rc =? 0); repeat split. Qed.

Lemma on_message_subscribes cfg msg info :
  subscribes (trace (on_message cfg msg info)) = [].
Proof.
  destruct (on_message_cases cfg msg info)
    as [[_ E] | (s & D & [(v & _ & _ & E) | (ws & W & E)])]; rewrite E;
    try reflexivity.
  unfold trace, forward_actions, publish_record; simpl fst.
  destruct W as [-> | [-> | ->]];
    destruct (rc info =? MQTT_ERR_SUCCESS); reflexivity.
Qed.

(** A handler returns, or raises [UnicodeDecodeError] or [TypeError]. *)
Lemma handle_outcomes cfg cb :
  result (handle cfg cb) = Returns tt \/
  (exists msg info, cb = Message msg info /\
     (result (handle cfg cb) = Raises UnicodeDecodeError \/
      result (handle cfg cb) = Raises TypeError)).
Proof.
  destruct cb as [rc|msg info|rc]; simpl.
  - left. apply on_connect_returns.
  - destruct (on_message_cases cfg msg info)
      as [[_ E] | (s & D & [(v & _ & _ & E) | (ws & W & E)])]; rewrite E.
    + right. exists msg, info. auto.
    + right. exists msg, info. auto.
    + left. reflexivity.
  - left. apply on_disconnect_returns.
Qed.

(** One step of the loop. *)
Lemma dispatch_cons_returns cfg cb cbs :
  result (handle cfg cb) = Returns tt ->
  trace (dispatch cfg (cb :: cbs)) = trace (handle cfg cb) ++ trace (dispatch cfg cbs)
  /\ result (dispatch cfg (cb :: cbs)) = result (dispatch cfg cbs).
Proof.
  intros H. cbn [dispatch]. destruct (handle cfg cb) as [t r].
  simpl in H. subst r. unfold bind. destruct (dispatch cfg cbs) as [t' r'].
  split; reflexivity.
Qed.

Lemma dispatch_cons_raises cfg cb cbs e :
  result (handle cfg cb) = Raises e ->
  dispatch cfg (cb :: cbs) = (trace (handle cfg cb), Raises e).
Proof.
  intros H. cbn [dispatch]. destruct (handle cfg cb) as [t r].
  simpl in H. subst r. reflexivity.
Qed.

Lemma dispatch_interrupted_cons cfg cb cbs :
  result (dispatch cfg (cb :: cbs)) = Raises KeyboardInterrupt ->
  result (handle cfg cb) = Returns tt /\
  result (dispatch cfg cbs) = Raises KeyboardInterrupt.
Proof.
  intros H.
  destruct (handle_outcomes cfg cb) as [R | (msg & info & _ & [R | R])].
  - split; [assumption|].
    now rewrite <- (proj2 (dispatch_cons_returns cfg cb cbs R)).
  - rewrite (dispatch_cons_raises cfg cb cbs R) in H. discriminate.
  - rewrite (dispatch_cons_raises cfg cb cbs R) in H. discriminate.
Qed.

Lemma loop_forever_trace cfg cbs :
  trace (loop_forever cfg cbs) = Mosquitto_loop_forever :: trace (dispatch cfg cbs)
  /\ result (loop_forever cfg cbs) = result (dispatch cfg cbs).
Proof.
  unfold loop_forever, act, bind. destruct (dispatch cfg cbs). split; reflexivity.
Qed.

(** ** The receive loop *)

(** X8: in a run of the loop that Ctrl+C ends, the publish calls are one
    per received message, in the order of arrival, each to the configured
    topic at QoS 1 and with the bytes of the message on the wire. *)
Theorem stream_forwarded_in_order cfg cbs :
  result (loop_forever cfg cbs) = Raises KeyboardInterrupt ->
  map on_wire (publishes (trace (loop_forever cfg cbs))) =
  map (fun msg => (RFID_TOPIC cfg, Some (payload msg), 1)) (messages cbs).
Proof.
  rewrite (proj2 (loop_forever_trace cfg cbs)),
          (proj1 (loop_forever_trace cfg cbs)).
  cbn [publishes].
  induction cbs as [|cb cbs IH]; intros K; [reflexivity|].
  destruct (dispatch_interrupted_cons cfg cb cbs K) as [R K'].
  rewrite (proj1 (dispatch_cons_returns cfg cb cbs R)), publishes_app, map_app.
  rewrite (IH K'). clear IH K K'.
  destruct cb as [rc|msg info|rc]; simpl handle in *; cbn [messages].
  - now rewrite (proj1 (proj2 (on_connect_returns cfg rc))).
  - destruct (forwarding_fidelity cfg msg info R) as (s & P & W).
    rewrite P. cbn [map app on_wire]. now rewrite W.
  - now rewrite (proj1 (proj2 (on_disconnect_returns rc))).
Qed.

Lemma stream_forwarded_in_order_witness :
  map on_wire
      (publishes
         (trace (loop_forever default_config
                   [Connack 0;
                    Message (scan_message (b_ "first")) accepted;
                    Disconnect 1; Connack 0;
                    Message (scan_message (b_ "second")) not_connected])))
  = [("rfid/scan", Some (b_ "first"), 1); ("rfid/scan", Some (b_ "second"), 1)].
Proof.
  exact (stream_forwarded_in_order default_config
           [Connack 0;
            Message (scan_message (b_ "first")) accepted;
            Disconnect 1; Connack 0;
            Message (scan_message (b_ "second")) not_connected]
           eq_refl).
Defined.

(** X9: in a run of the loop that Ctrl+C ends, the relay subscribes once,
    to the configured topic, for each CONNACK that accepts the
    connection: after a reconnection the subscription is made again. *)
Theorem subscribes_follow_connacks cfg cbs :
  result (loop_forever cfg cbs) = Raises KeyboardInterrupt ->
  subscribes (trace (loop_forever cfg cbs)) =
  map (fun _ => RFID_TOPIC cfg) (filter is_accepted_connack cbs).
Proof.
  rewrite (proj2 (loop_forever_trace cfg cbs)),
          (proj1 (loop_forever_trace cfg cbs)).
  cbn [subscribes].
  induction cbs as [|cb cbs IH]; intros K; [reflexivity|].
  destruct (dispatch_interrupted_cons cfg cb cbs K) as [R K'].
  rewrite (proj1 (dispatch_cons_returns cfg cb cbs R)), subscribes_app.
  rewrite (IH K'). clear IH K K'.
  destruct cb as [rc|msg info|rc]; simpl handle; cbn [filter is_accepted_connack].
  - rewrite (proj2 (proj2 (on_connect_returns cfg rc))).
    destruct (rc =? 0); reflexivity.
  - now rewrite on_message_subscribes.
  - now rewrite (proj2 (proj2 (on_disconnect_returns rc))).
Qed.

Lemma subscribes_follow_connacks_witness :
  subscribes
    (trace (loop_forever default_config
              [Connack 5; Connack 0;
               Message (scan_message (b_ "first")) accepted;
               Disconnect 1; Connack 0]))
  = ["rfid/scan"; "rfid/scan"].
Proof.
  exact (subscribes_follow_connacks default_config
           [Connack 5; Connack 0;
            Message (scan_message (b_ "first")) accepted;
            Disconnect 1; Connack 0]
           eq_refl).
Defined.

(** X10: a message whose handler raises ends the loop: the run is the run of
    the callbacks before it followed by what its handler did, whatever
    callbacks come after it. *)
Theorem raising_message_ends_loop cfg before msg info after e :
  result (loop_forever cfg before) = Raises KeyboardInterrupt ->
  result (on_message cfg msg info) = Raises e ->
  trace (loop_forever cfg (before ++ Message msg info :: after)) =
    trace (loop_forever cfg before) ++ trace (on_message cfg msg info) /\
  result (loop_forever cfg (before ++ Message msg info :: after)) = Raises e /\
  publishes (trace (loop_forever cfg (before ++ Message msg info :: after))) =
    publishes (trace (loop_forever cfg before)).
Proof.
  intros K R.
  assert (D : trace (dispatch cfg (before ++ Message msg info :: after)) =
              trace (dispatch cfg before) ++ trace (on_message cfg msg info) /\
              result (dispatch cfg (before ++ Message msg info :: after)) = Raises e).
  { rewrite (proj2 (loop_forever_trace cfg before)) in K.
    induction before as [|cb before IH].
    - rewrite app_nil_l.
      rewrite (dispatch_cons_raises cfg (Message msg info) after R).
      split; reflexivity.
    - destruct (dispatch_interrupted_cons cfg cb before K) as [H K'].
      rewrite <- app_comm_cons.
      destruct (dispatch_cons_returns cfg cb (before ++ Message msg info :: after) H)
        as [T1 R1].
      destruct (dispatch_cons_returns cfg cb before H) as [T2 _].
      destruct (IH K') as [T3 R3].
      rewrite T1, R1, T2, T3, R3, app_assoc. split; reflexivity. }
  destruct D as [T E].
  rewrite !(proj1 (loop_forever_trace cfg _)), !(proj2 (loop_forever_trace cfg _)).
  rewrite T, E. repeat split.
  cbn [publishes app]. rewrite publishes_app.
  destruct (on_message_publishes cfg msg info) as [[P _] | (s & _ & R' & _)].
  - rewrite P. apply app_nil_r.
  - rewrite R in R'. discriminate.
Qed.

Lemma raising_message_ends_loop_witness :
  publishes
    (trace (loop_forever default_config
              ([Connack 0; Message (scan_message (b_ "first")) accepted]
               ++ Message (scan_message [xff]) accepted
               :: [Message (scan_message (b_ "second")) accepted])))
  = publishes
      (trace (loop_forever default_config
                [Connack 0; Message (scan_message (b_ "first")) accepted])).
Proof.
  exact (proj2 (proj2
    (@raising_message_ends_loop default_config
       [Connack 0; Message (scan_message (b_ "first")) accepted]
       (scan_message [xff]) accepted
       [Message (scan_message (b_ "second")) accepted]
       UnicodeDecodeError eq_refl eq_refl))).
Defined.

(** ** [main] as a whole *)

(** X11: once both connections are established, the [finally] clause runs
    however the loop ends: the run ends with the disconnect of the
    Mosquitto client and the stop and disconnect of the RabbitMQ client.
    The exit status is 0 exactly when Ctrl+C ended the loop. *)
Theorem shutdown_always_runs cfg w :
  rabbitmq_connect_result w = Connected ->
  mosquitto_connect_result w = Connected ->
  (exists before,
     trace (script cfg w) =
       before ++ [Mosquitto_disconnect; Rabbitmq_loop_stop; Rabbitmq_disconnect])
  /\ (exit_status (script cfg w) = 0 <->
      result (loop_forever cfg (dispatched w)) = Raises KeyboardInterrupt).
Proof.
  intros H1 H2. rewrite script_trace, exit_status_script. unfold exit_status.
  rewrite (main_running cfg w H1 H2). unfold trace at 1, result at 1; simpl fst; simpl snd.
  split.
  - exists (Rabbitmq_username_pw_set (RABBITMQ_USER cfg) (RABBITMQ_PASS cfg)
            :: rabbitmq_startup cfg ++
               [Mosquitto_connect (MOSQUITTO_HOST cfg) (MOSQUITTO_PORT cfg) 60;
                Log INFO "Relay running – press Ctrl+C to stop" []] ++
               trace (loop_forever cfg (dispatched w)) ++
               match result (loop_forever cfg (dispatched w)) with
               | Raises KeyboardInterrupt => [Log INFO "Relay stopped by user" []]
               | _ => []
               end).
    rewrite <- app_comm_cons. f_equal. rewrite <- !app_assoc. reflexivity.
  - destruct (dispatch_raises cfg (dispatched w)) as [e E].
    rewrite (proj2 (loop_forever_trace cfg (dispatched w))), E.
    destruct e; split; intros H; try discriminate; reflexivity.
Qed.

Lemma shutdown_always_runs_witness :
  exit_status
    (script default_config (running [Message (scan_message [xff]) accepted]))
  = 0 <->
  result (loop_forever default_config [Message (scan_message [xff]) accepted])
  = Raises KeyboardInterrupt.
Proof.
  exact (proj2 (@shutdown_always_runs default_config
                  (running [Message (scan_message [xff]) accepted])
                  eq_refl eq_refl)).
Defined.



(** X13: the relay publishes only from inside the receive loop: nothing is
    published when a connect call fails, and otherwise the publish calls
    of the whole run are those of the loop. *)
Theorem publishes_only_in_loop cfg w :
  publishes (trace (script cfg w)) =
    match rabbitmq_connect_result w, mosquitto_connect_result w with
    | Connected, Connected =>
        publishes (trace (loop_forever cfg (dispatched w)))
    | _, _ => []
    end.
Proof.
  rewrite script_trace. cbn [publishes].
  destruct (rabbitmq_connect_result w) as [|err] eqn:H1.
  2:{ now rewrite (main_rabbitmq_down cfg w H1). }
  destruct (mosquitto_connect_result w) as [|err] eqn:H2.
  2:{ now rewrite (main_mosquitto_down cfg w H1 H2). }
  assert (T : trace (main cfg w) =
              rabbitmq_startup cfg ++
              [Mosquitto_connect (MOSQUITTO_HOST cfg) (MOSQUITTO_PORT cfg) 60;
               Log INFO "Relay running – press Ctrl+C to stop" []] ++
              trace (loop_forever cfg (dispatched w)) ++
              match result (loop_forever cfg (dispatched w)) with
              | Raises KeyboardInterrupt => [Log INFO "Relay stopped by user" []]
              | _ => []
              end ++ shutdown_actions)
    by (rewrite (main_running cfg w H1 H2); reflexivity).
  rewrite T, !publishes_app.
  replace (publishes (rabbitmq_startup cfg)) with (@nil (string * pystr * Z))
    by reflexivity.
  replace (publishes shutdown_actions) with (@nil (string * pystr * Z))
    by reflexivity.
  destruct (result (loop_forever cfg (dispatched w))) as [[]|[]];
    cbn [publishes app]; now rewrite app_nil_r.
Qed.

(** * The test publisher *)

Example dumps_scan_default :
  TestPub.dumps_scan (py "TEST123") 1700000000 =
  py (quoted "{'tag_id': 'TEST123', 'timestamp': 1700000000}").
Proof. vm_compute. reflexivity. Qed.

Example dumps_scan_escapes :
  TestPub.dumps_scan [0x1F600; 233; 10; 34; 92; 127; 0xD800]%N (-5) =
  py (quoted
        "{'tag_id': '\ud83d\ude00\u00e9\n\'\\\u007f\ud800', 'timestamp': -5}").
Proof. vm_compute. reflexivity. Qed.

Section DumpsFacts.
Import Json TestPub.
Local Open Scope N_scope.

Lemma hexval_hexdigit n : n < 16 -> hexval (hexdigit n) = Some n.
Proof.
  intros H. unfold hexval, hexdigit, is_digit, chr.
  change (N_of_ascii "0") with 48. change (N_of_ascii "9") with 57.
  change (N_of_ascii "a") with 97. change (N_of_ascii "f") with 102.
  change (N_of_ascii "A") with 65. change (N_of_ascii "F") with 70.
  destruct (N.ltb_spec n 10) as [L|L].
  - destruct (N.leb_spec 48 (48 + n)); [|lia].
    destruct (N.leb_spec (48 + n) 57); [|lia].
    cbn [andb]. f_equal. lia.
  - destruct (N.leb_spec (97 + (n - 10)) 57); [lia|].
    rewrite andb_false_r.
    destruct (N.leb_spec 97 (97 + (n - 10))); [|lia].
    destruct (N.leb_spec (97 + (n - 10)) 102); [|lia].
    cbn [andb]. f_equal. lia.
Qed.

Lemma nibble c k : N.land (N.shiftr c k) 0xF = (c / 2 ^ k) mod 16.
Proof.
  rewrite N.shiftr_div_pow2. change 0xF with (N.ones 4).
  now rewrite N.land_ones.
Qed.

Lemma nibble0 c : N.land c 0xF = c mod 16.
Proof. change 0xF with (N.ones 4). now rewrite N.land_ones. Qed.

(** The four digits of an escape read back as the code unit. *)
Lemma hex4_u_escape c :
  c < 0x10000 ->
  hex4 (hexdigit (N.land (N.shiftr c 12) 0xF))
       (hexdigit (N.land (N.shiftr c 8) 0xF))
       (hexdigit (N.land (N.shiftr c 4) 0xF))
       (hexdigit (N.land c 0xF)) = Some c.
Proof.
  intros H. unfold hex4. rewrite !nibble, nibble0.
  rewrite !hexval_hexdigit by (apply N.mod_lt; discriminate).
  f_equal. change (2 ^ 12) with 4096. change (2 ^ 8) with 256.
  change (2 ^ 4) with 16. div_lia.
Qed.


(** *** [scanstring] reads an escaped str back *)

Lemma scanstring_plain c rest :
  S_CHAR c = true ->
  scanstring (c :: rest) = scan_map (cons c) (scanstring rest).
Proof.
  unfold S_CHAR. rewrite !andb_true_iff, !negb_true_iff, !N.leb_le, !N.eqb_neq.
  intros [[[L U] B] Q]. cbn [scanstring].
  destruct (N.eqb_spec c 34); [contradiction|].
  destruct (N.eqb_spec c 92); [contradiction|].
  destruct (N.leb_spec c 0x1F); [lia | reflexivity].
Qed.

Lemma scanstring_short e ch rest :
  (e =? chr "u") = false ->
  escape_char e = Some ch ->
  scanstring (92 :: e :: rest) = scan_map (cons ch) (scanstring rest).
Proof.
  intros U E. cbn [scanstring]. change (92 =? 34) with false.
  change (92 =? 92) with true. cbv iota. now rewrite U, E.
Qed.

Lemma scanstring_u_unfold d1 d2 d3 d4 s3 :
  scanstring (92 :: chr "u" :: d1 :: d2 :: d3 :: d4 :: s3) =
  match hex4 d1 d2 d3 d4 with
  | None => Invalid
  | Some u =>
      match s3 with
      | b :: v :: e1 :: e2 :: e3 :: e4 :: s4 =>
          if is_high_surrogate u && (b =? 92) && (v =? chr "u")
          then
            match hex4 e1 e2 e3 e4 with
            | None => Invalid
            | Some u2 =>
                if is_low_surrogate u2
                then scan_map (cons (join_surrogates u u2)) (scanstring s4)
                else scan_map (cons u) (scanstring s3)
            end
          else scan_map (cons u) (scanstring s3)
      | _ => scan_map (cons u) (scanstring s3)
      end
  end.
Proof. reflexivity. Qed.

(** One escape standing for itself: it is not the high half of a pair,
    or what follows is not the escape of a low half. *)
Lemma scanstring_u_single u d1 d2 d3 d4 s3 :
  hex4 d1 d2 d3 d4 = Some u ->
  is_high_surrogate u = false \/
  (forall b v e1 e2 e3 e4 s4,
     s3 = b :: v :: e1 :: e2 :: e3 :: e4 :: s4 ->
     b = 92 -> v = chr "u" ->
     exists u2, hex4 e1 e2 e3 e4 = Some u2 /\ is_low_surrogate u2 = false) ->
  scanstring (92 :: chr "u" :: d1 :: d2 :: d3 :: d4 :: s3) =
  scan_map (cons u) (scanstring s3).
Proof.
  intros H J. rewrite scanstring_u_unfold, H.
  destruct s3 as [|b [|v [|e1 [|e2 [|e3 [|e4 s4]]]]]]; try reflexivity.
  destruct (is_high_surrogate u) eqn:Hu; [|reflexivity].
  destruct J as [J|J]; [discriminate|].
  destruct (N.eqb_spec b 92) as [Hb|]; [|reflexivity].
  destruct (N.eqb_spec v (chr "u")) as [Hv|]; [|reflexivity].
  cbn [andb].
  destruct (J b v e1 e2 e3 e4 s4 eq_refl Hb Hv) as (u2 & E & L).
  now rewrite E, L.
Qed.

Lemma scanstring_u_pair hi lo h1 h2 h3 h4 l1 l2 l3 l4 rest :
  hex4 h1 h2 h3 h4 = Some hi -> is_high_surrogate hi = true ->
  hex4 l1 l2 l3 l4 = Some lo -> is_low_surrogate lo = true ->
  scanstring (92 :: chr "u" :: h1 :: h2 :: h3 :: h4 ::
              92 :: chr "u" :: l1 :: l2 :: l3 :: l4 :: rest) =
  scan_map (cons (join_surrogates hi lo)) (scanstring rest).
Proof.
  intros H1 H2 H3 H4. rewrite scanstring_u_unfold, H1, H2.
  change (92 =? 92) with true. rewrite N.eqb_refl. cbn [andb].
  now rewrite H3, H4.
Qed.

Lemma high_surrogate_eq c : high_surrogate c = 0xD7C0 + c / 1024.
Proof.
  unfold high_surrogate.
  replace (N.shiftr c 10) with (c / 1024)
    by (rewrite N.shiftr_div_pow2; reflexivity).
  reflexivity.
Qed.

Lemma low_surrogate_eq c : low_surrogate c = 0xDC00 + c mod 1024.
Proof.
  unfold low_surrogate. change 0x3FF with (N.ones 10).
  now rewrite N.land_ones.
Qed.

Lemma surrogate_pair_of c :
  0x10000 <= c < 0x110000 ->
  high_surrogate c < 0x10000 /\ is_high_surrogate (high_surrogate c) = true /\
  low_surrogate c < 0x10000 /\ is_low_surrogate (low_surrogate c) = true /\
  is_low_surrogate (high_surrogate c) = false /\
  join_surrogates (high_surrogate c) (low_surrogate c) = c.
Proof.
  intros H. rewrite high_surrogate_eq, low_surrogate_eq.
  unfold is_high_surrogate, is_low_surrogate, join_surrogates.
  repeat split.
  - div_lia.
  - apply andb_true_iff. rewrite !N.leb_le. div_lia.
  - div_lia.
  - apply andb_true_iff. rewrite !N.leb_le. div_lia.
  - apply andb_false_iff. left. apply N.leb_gt. div_lia.
  - div_lia.
Qed.



Lemma u_escape_eq c :
  u_escape c =
  92 :: chr "u" :: hexdigit (N.land (N.shiftr c 12) 0xF)
     :: hexdigit (N.land (N.shiftr c 8) 0xF)
     :: hexdigit (N.land (N.shiftr c 4) 0xF)
     :: hexdigit (N.land c 0xF) :: [].
Proof. reflexivity. Qed.

(** The cases of [escape_unichar]. *)
Lemma escape_unichar_cases c :
  (S_CHAR c = true /\ escape_unichar c = [c])
  \/ (exists e, escape_unichar c = [92; e] /\ (e =? chr "u") = false /\
                escape_char e = Some c)
  \/ (0x10000 <= c /\
      escape_unichar c = u_escape (high_surrogate c) ++ u_escape (low_surrogate c))
  \/ (c < 0x10000 /\ escape_unichar c = u_escape c).
Proof.
  unfold escape_unichar.
  destruct (S_CHAR c) eqn:S; [left; auto|].
  destruct (N.eqb_spec c 92) as [->|_];
    [right; left; exists 92; repeat split|].
  destruct (N.eqb_spec c 34) as [->|_];
    [right; left; exists 34; repeat split|].
  destruct (N.eqb_spec c 8) as [->|_];
    [right; left; exists (chr "b"); repeat split|].
  destruct (N.eqb_spec c 12) as [->|_];
    [right; left; exists (chr "f"); repeat split|].
  destruct (N.eqb_spec c 10) as [->|_];
    [right; left; exists (chr "n"); repeat split|].
  destruct (N.eqb_spec c 13) as [->|_];
    [right; left; exists (chr "r"); repeat split|].
  destruct (N.eqb_spec c 9) as [->|_];
    [right; left; exists (chr "t"); repeat split|].
  destruct (N.leb_spec 0x10000 c); right; right; [left | right]; auto.
Qed.

Lemma scanstring_escape c rest :
  c < 0x110000 ->
  (is_high_surrogate c = true -> not_a_low_escape rest) ->
  scanstring (escape_unichar c ++ rest) = scan_map (cons c) (scanstring rest).
Proof.
  intros V J.
  destruct (escape_unichar_cases c)
    as [[S E] | [(e & E & U & X) | [[L E] | [L E]]]]; rewrite E.
  - now apply scanstring_plain.
  - now apply scanstring_short.
  - destruct (surrogate_pair_of (conj L V)) as (H1 & H2 & H3 & H4 & _ & H6).
    rewrite !u_escape_eq. cbn [app].
    rewrite (@scanstring_u_pair _ _ _ _ _ _ _ _ _ _ rest (hex4_u_escape H1) H2
               (hex4_u_escape H3) H4).
    now rewrite H6.
  - rewrite u_escape_eq. cbn [app].
    apply scanstring_u_single; [now apply hex4_u_escape|].
    destruct (is_high_surrogate c); [right; now apply J | now left].
Qed.

Lemma quote_not_a_low_escape rest : not_a_low_escape (34 :: rest).
Proof. intros b v e1 e2 e3 e4 s4 E B. injection E as <-. discriminate B. Qed.

Lemma escape_not_a_low_escape c tail :
  c < 0x110000 -> is_low_surrogate c = false ->
  not_a_low_escape (escape_unichar c ++ tail).
Proof.
  intros V Lo b v e1 e2 e3 e4 s4 E B U.
  destruct (escape_unichar_cases c)
    as [[S X] | [(e & X & Ue & _) | [[L X] | [L X]]]]; rewrite X in E.
  - injection E as <-. subst c. discriminate S.
  - injection E as _ <-. subst e. discriminate Ue.
  - destruct (surrogate_pair_of (conj L V)) as (H1 & _ & _ & _ & H5 & _).
    rewrite !u_escape_eq in E. cbn [app] in E.
    injection E as _ _ <- <- <- <- _.
    exists (high_surrogate c). split; [now apply hex4_u_escape | exact H5].
  - rewrite u_escape_eq in E. cbn [app] in E.
    injection E as _ _ <- <- <- <- _.
    exists c. split; [now apply hex4_u_escape | exact Lo].
Qed.

(** [scanstring] reads the escaped text of a str back, up to the closing
    quote, when no high surrogate of the str is followed by a low one. *)
Lemma scanstring_escaped s :
  code_points s = true -> no_surrogate_pair s = true ->
  forall rest,
    scanstring (flat_map escape_unichar s ++ 34 :: rest) = Scanned s rest.
Proof.
  induction s as [|c s IH]; intros V P rest; [reflexivity|].
  cbn [code_points forallb] in V. apply andb_true_iff in V.
  destruct V as [Vc V]. apply N.ltb_lt in Vc.
  cbn [no_surrogate_pair] in P. apply andb_true_iff in P.
  destruct P as [Pc P].
  cbn [flat_map]. rewrite <- app_assoc.
  rewrite scanstring_escape; [now rewrite (IH V P rest) | assumption |].
  intros Hc. destruct s as [|d s'].
  - apply quote_not_a_low_escape.
  - cbn [flat_map]. rewrite <- app_assoc.
    cbn [code_points forallb] in V. apply andb_true_iff in V.
    apply escape_not_a_low_escape; [apply N.ltb_lt, V|].
    rewrite Hc in Pc. cbn [andb] in Pc.
    now apply negb_true_iff in Pc.
Qed.


(** ** The decimal text of an int *)

Lemma is_digit_cases c :
  is_digit c = true ->
  c = 48 \/ c = 49 \/ c = 50 \/ c = 51 \/ c = 52 \/ c = 53 \/ c = 54 \/
  c = 55 \/ c = 56 \/ c = 57.
Proof.
  unfold is_digit, chr. change (N_of_ascii "0") with 48.
  change (N_of_ascii "9") with 57.
  rewrite andb_true_iff, !N.leb_le. lia.
Qed.

Lemma digits_are_digits d : Forall (fun c => is_digit c = true) (digits d).
Proof. induction d; cbn [digits]; constructor; auto. Qed.

Lemma span_digits_all ds c rest :
  Forall (fun c => is_digit c = true) ds -> is_digit c = false ->
  span_digits (ds ++ c :: rest) = (ds, c :: rest).
Proof.
  intros F C. induction F as [|x ds X F IH]; cbn [app span_digits].
  - now rewrite C.
  - now rewrite X, IH.
Qed.

Lemma int_of_digits_acc d (acc : positive) :
  fold_left (fun a c => (a * 10 + Z.of_N (c - chr "0")%N)%Z) (digits d)
            (Z.pos acc)
  = Z.pos (Pos.of_uint_acc d acc).
Proof.
  revert acc; induction d; intros acc; cbn [digits fold_left Pos.of_uint_acc];
    [reflexivity | rewrite <- IHd; f_equal;
                   match goal with |- (_ + Z.of_N ?k)%Z = _ =>
                     let v := eval vm_compute in (Z.of_N k) in
                     change (Z.of_N k) with v
                   end; lia ..].
Qed.

Lemma int_of_digits_digits d :
  int_of_digits (digits d) = Z.of_N (Pos.of_uint d).
Proof.
  unfold int_of_digits.
  induction d; cbn [digits fold_left Pos.of_uint];
    [reflexivity | exact IHd | apply (int_of_digits_acc d) ..].
Qed.

(** The decimal numeral of a positive number begins with a digit from 1
    to 9. *)
Lemma to_uint_head p :
  exists c ds,
    digits (Pos.to_uint p) = c :: ds /\ is_digit c = true /\
    (c =? chr "0") = false.
Proof.
  pose proof (DecimalPos.Unsigned.to_of (Pos.to_uint p)) as U.
  rewrite DecimalPos.Unsigned.of_to in U. cbn [N.to_uint] in U.
  pose proof (DecimalPos.Unsigned.to_uint_nonzero p) as Z.
  assert (H : forall d', Pos.to_uint p <> Decimal.D0 d').
  { intros d' E. rewrite U in E. unfold Decimal.unorm in E.
    destruct (Decimal.nzhead (Pos.to_uint p)) eqn:N;
      try discriminate E.
    - apply Z. rewrite U. unfold Decimal.unorm. now rewrite N.
    - now apply (@DecimalFacts.nzhead_nonzero (Pos.to_uint p) u). }
  pose proof (DecimalPos.Unsigned.to_uint_nonnil p) as NN.
  destruct (Pos.to_uint p) as [|u|u|u|u|u|u|u|u|u|u];
    [now destruct NN | now destruct (H u) | ..];
    cbn [digits]; eexists; eexists; (split; [reflexivity|]); split; reflexivity.
Qed.

Lemma take_frac_brace rest : take_frac (125 :: rest) = ([], 125 :: rest).
Proof. destruct rest; reflexivity. Qed.

Lemma match_number_nat c ds rest :
  is_digit c = true -> (c =? chr "0") = false ->
  Forall (fun c => is_digit c = true) ds ->
  match_number (c :: ds ++ 125 :: rest)
  = Scanned (PyInt (int_of_digits (c :: ds))) (125 :: rest).
Proof.
  intros C Z F. unfold match_number. cbn [take_sign].
  replace (c =? chr "-") with false
    by (destruct (is_digit_cases c C) as [->|[->|[->|[->|[->|[->|[->|[->|[->| ->]]]]]]]]];
        reflexivity).
  cbn [take_int]. rewrite Z, C.
  rewrite (@span_digits_all ds 125 rest F eq_refl).
  now rewrite take_frac_brace.
Qed.

Lemma match_number_neg c ds rest :
  is_digit c = true -> (c =? chr "0") = false ->
  Forall (fun c => is_digit c = true) ds ->
  match_number (chr "-" :: c :: ds ++ 125 :: rest)
  = Scanned (PyInt (- int_of_digits (c :: ds))) (125 :: rest).
Proof.
  intros C Z F. unfold match_number.
  change (take_sign (chr "-" :: c :: ds ++ 125 :: rest))
    with ([chr "-"], c :: ds ++ 125 :: rest).
  cbn [take_int]. rewrite Z, C.
  rewrite (@span_digits_all ds 125 rest F eq_refl).
  now rewrite take_frac_brace.
Qed.

Lemma scan_once_digit fuel c s :
  is_digit c = true ->
  scan_once (S fuel) (c :: s) = match_number (c :: s).
Proof.
  intros C.
  destruct (is_digit_cases c C) as [->|[->|[->|[->|[->|[->|[->|[->|[->| ->]]]]]]]]];
    reflexivity.
Qed.

Lemma scan_once_minus fuel c s :
  is_digit c = true ->
  scan_once (S fuel) (chr "-" :: c :: s) = match_number (chr "-" :: c :: s).
Proof.
  intros C.
  destruct (is_digit_cases c C) as [->|[->|[->|[->|[->|[->|[->|[->|[->| ->]]]]]]]]];
    reflexivity.
Qed.

(** The scanner reads the decimal text of an int back, up to the closing
    brace. *)
Lemma scan_once_repr_int fuel z rest :
  scan_once (S fuel) (repr_int z ++ 125 :: rest)
  = Scanned (PyInt z) (125 :: rest).
Proof.
  unfold repr_int. destruct z as [|p|p]; cbn [Z.to_int].
  - destruct rest; reflexivity.
  - destruct (to_uint_head p) as (c & ds & E & C & Z).
    pose proof (digits_are_digits (Pos.to_uint p)) as F.
    pose proof (int_of_digits_digits (Pos.to_uint p)) as V.
    rewrite DecimalPos.Unsigned.of_to in V.
    rewrite E in *. inversion F; subst.
    rewrite <- app_comm_cons, scan_once_digit, match_number_nat by assumption.
    now rewrite V.
  - destruct (to_uint_head p) as (c & ds & E & C & Z).
    pose proof (digits_are_digits (Pos.to_uint p)) as F.
    pose proof (int_of_digits_digits (Pos.to_uint p)) as V.
    rewrite DecimalPos.Unsigned.of_to in V.
    rewrite E in *. inversion F; subst.
    rewrite <- !app_comm_cons, scan_once_minus, match_number_neg by assumption.
    now rewrite V.
Qed.


(** ** The text of the scan *)

Lemma dumps_scan_eq tag ts :
  dumps_scan tag ts =
  123 :: 34 :: flat_map escape_unichar (py "tag_id") ++
  34 :: 58 :: 32 :: 34 :: flat_map escape_unichar tag ++
  34 :: 44 :: 32 :: 34 :: flat_map escape_unichar (py "timestamp") ++
  34 :: 58 :: 32 :: repr_int ts ++ [125].
Proof.
  unfold dumps_scan, encode_basestring_ascii.
  change (py "{") with [123]. change (py ": ") with [58; 32].
  change (py ", ") with [44; 32]. change (py "}") with [125].
  cbn [app]. rewrite <- !app_assoc. reflexivity.
Qed.

(** One member of an object: the key, a colon and a space, then the
    value, which does not begin with white space. *)
Lemma JSONObject_member fuel key rest acc :
  code_points key = true -> no_surrogate_pair key = true ->
  skip_ws rest = rest ->
  JSONObject (S fuel)
    (34 :: flat_map escape_unichar key ++ 34 :: 58 :: 32 :: rest) acc
  = match scan_once fuel rest with
    | Scanned v s4 =>
        match skip_ws s4 with
        | d :: s5 =>
            if d =? chr "}"
            then Scanned (PyDict (rev ((key, v) :: acc))) s5
            else if d =? chr ","
                 then JSONObject fuel (skip_ws s5) ((key, v) :: acc)
                 else Invalid
        | [] => Invalid
        end
    | Invalid => Invalid
    | Exhausted => Exhausted
    end.
Proof.
  intros V P W. cbn [JSONObject]. change (34 =? 34) with true. cbv iota.
  rewrite (scanstring_escaped key V P).
  change (skip_ws (58 :: 32 :: rest)) with (58 :: 32 :: rest).
  cbv iota. change (58 =? chr ":") with true. cbv iota.
  change (skip_ws (32 :: rest)) with (skip_ws rest).
  rewrite W. reflexivity.
Qed.

Lemma skip_ws_repr_int z rest :
  skip_ws (repr_int z ++ rest) = repr_int z ++ rest.
Proof.
  unfold repr_int. destruct z as [|p|p]; cbn [Z.to_int]; try reflexivity.
  destruct (to_uint_head p) as (c & ds & -> & C & _).
  destruct (is_digit_cases c C) as [->|[->|[->|[->|[->|[->|[->|[->|[->| ->]]]]]]]]];
    reflexivity.
Qed.

(** The scanner on the text of the scan, given what [scanstring] makes
    of the escaped tag. *)
Lemma scan_once_dumps_scan fuel tag tag' ts :
  (forall rest,
     scanstring (flat_map escape_unichar tag ++ 34 :: rest)
     = Scanned tag' rest) ->
  scan_once (S (S (S (S fuel)))) (dumps_scan tag ts)
  = Scanned (PyDict [(py "tag_id", PyStr tag'); (py "timestamp", PyInt ts)])
            [].
Proof.
  intros T. rewrite dumps_scan_eq.
  change (scan_once (S (S (S (S fuel)))) (123 :: 34 :: ?s))
    with (JSONObject (S (S (S fuel))) (34 :: s) []).
  rewrite JSONObject_member by reflexivity.
  change (scan_once (S (S fuel)) (34 :: ?s)) with (scan_map PyStr (scanstring s)).
  rewrite T. cbn [scan_map].
  change (skip_ws (44 :: ?s)) with (44 :: s). cbv iota.
  change (44 =? chr "}") with false. change (44 =? chr ",") with true.
  cbv iota.
  change (skip_ws (32 :: 34 :: ?s)) with (34 :: s).
  rewrite JSONObject_member;
    [| reflexivity | reflexivity | apply skip_ws_repr_int].
  change [125] with (125 :: []). rewrite scan_once_repr_int.
  reflexivity.
Qed.

Lemma loads_dumps_scan_as tag tag' ts :
  (forall rest,
     scanstring (flat_map escape_unichar tag ++ 34 :: rest)
     = Scanned tag' rest) ->
  loads (dumps_scan tag ts)
  = Some (PyDict [(py "tag_id", PyStr tag'); (py "timestamp", PyInt ts)]).
Proof.
  intros T. unfold loads.
  assert (W : skip_ws (dumps_scan tag ts) = dumps_scan tag ts)
    by (rewrite dumps_scan_eq; reflexivity).
  assert (F : exists k,
             S (2 * List.length (dumps_scan tag ts)) = S (S (S (S k)))).
  { rewrite dumps_scan_eq. cbn [List.length].
    match goal with
    | |- exists k, S (2 * S (S ?n)) = _ => exists (2 * n + 1)%nat; lia
    end. }
  destruct F as (k & ->). rewrite W, (@scan_once_dumps_scan k tag tag' ts T).
  reflexivity.
Qed.

(** What [json.loads] makes of the text of a scan. *)
Lemma loads_dumps_scan tag ts :
  code_points tag = true -> no_surrogate_pair tag = true ->
  loads (dumps_scan tag ts)
  = Some (PyDict [(py "tag_id", PyStr tag); (py "timestamp", PyInt ts)]).
Proof.
  intros V P. apply loads_dumps_scan_as. now apply scanstring_escaped.
Qed.


(** ** The text is printable ASCII *)

Lemma hexdigit_printable n : n < 16 -> 32 <= hexdigit n <= 126.
Proof.
  intros H. unfold hexdigit, chr. change (N_of_ascii "0") with 48.
  change (N_of_ascii "a") with 97. destruct (N.ltb_spec n 10); lia.
Qed.

Lemma u_escape_printable c : Forall (fun c => 32 <= c <= 126) (u_escape c).
Proof.
  rewrite u_escape_eq. change (chr "u") with 117.
  repeat constructor; try lia;
    apply hexdigit_printable; rewrite ?nibble, ?nibble0;
    apply N.mod_lt; discriminate.
Qed.

Lemma escape_unichar_printable c :
  Forall (fun c => 32 <= c <= 126) (escape_unichar c).
Proof.
  unfold escape_unichar. destruct (S_CHAR c) eqn:S.
  - unfold S_CHAR in S. rewrite !andb_true_iff, !N.leb_le in S.
    constructor; [lia | constructor].
  - change (chr "b") with 98. change (chr "f") with 102.
    change (chr "n") with 110. change (chr "r") with 114.
    change (chr "t") with 116.
    repeat match goal with
           | |- context [if ?b then _ else _] => destruct b
           end;
      try (apply Forall_app; split); try apply u_escape_printable;
      repeat constructor; lia.
Qed.

Lemma escaped_printable s :
  Forall (fun c => 32 <= c <= 126) (flat_map escape_unichar s).
Proof.
  induction s as [|c s IH]; cbn [flat_map]; [constructor|].
  apply Forall_app. split; [apply escape_unichar_printable | exact IH].
Qed.

Lemma repr_int_printable z : Forall (fun c => 32 <= c <= 126) (repr_int z).
Proof.
  assert (D : forall d, Forall (fun c => 32 <= c <= 126) (digits d)).
  { intros d. eapply Forall_impl; [|apply digits_are_digits].
    intros c C.
    destruct (is_digit_cases c C) as [->|[->|[->|[->|[->|[->|[->|[->|[->| ->]]]]]]]]];
      lia. }
  unfold repr_int. destruct (Z.to_int z); [apply D|].
  constructor; [change (chr "-") with 45; lia | apply D].
Qed.

Lemma dumps_scan_printable tag ts :
  Forall (fun c => 32 <= c <= 126) (dumps_scan tag ts).
Proof.
  rewrite dumps_scan_eq.
  repeat lazymatch goal with
         | |- Forall _ (_ ++ _) => apply Forall_app; split
         | |- Forall _ (_ :: _) => apply Forall_cons; [lia|]
         | |- Forall _ [] => apply Forall_nil
         | |- Forall _ (flat_map _ _) => apply escaped_printable
         | |- Forall _ (repr_int _) => apply repr_int_printable
         end.
Qed.

(** ASCII text is encoded one byte per character. *)
Lemma encode_ascii s :
  Forall (fun c => c < 128) s -> Utf8.encode s = Some (map Utf8.byte_of s).
Proof.
  induction 1 as [|c s C F IH]; [reflexivity|].
  cbn [Utf8.encode map]. rewrite IH. unfold Utf8.encode_char.
  apply N.ltb_lt in C. now rewrite C.
Qed.

Lemma encode_dumps_scan tag ts :
  Utf8.encode (dumps_scan tag ts)
  = Some (map Utf8.byte_of (dumps_scan tag ts)).
Proof.
  apply encode_ascii. eapply Forall_impl; [|apply dumps_scan_printable].
  cbv beta. intros c C. lia.
Qed.

(** A surrogate is written as one escape of four hexadecimal digits. *)
Lemma escape_unichar_bmp c :
  127 <= c < 0x10000 -> escape_unichar c = u_escape c.
Proof.
  intros H. unfold escape_unichar, S_CHAR.
  replace (c <=? 126) with false by (symmetry; apply N.leb_gt; lia).
  rewrite andb_false_r. cbn [andb].
  repeat match goal with
         | |- context [?a =? ?b] =>
             destruct (N.eqb_spec a b); [lia|]
         end.
  destruct (N.leb_spec 0x10000 c); [lia | reflexivity].
Qed.

Lemma scanstring_surrogates hi lo rest :
  is_high_surrogate hi = true -> is_low_surrogate lo = true ->
  scanstring (flat_map escape_unichar [hi; lo] ++ 34 :: rest)
  = Scanned [join_surrogates hi lo] rest.
Proof.
  intros H L.
  assert (Bh : 127 <= hi < 0x10000).
  { unfold is_high_surrogate in H. rewrite andb_true_iff, !N.leb_le in H.
    lia. }
  assert (Bl : 127 <= lo < 0x10000).
  { unfold is_low_surrogate in L. rewrite andb_true_iff, !N.leb_le in L.
    lia. }
  cbn [flat_map]. rewrite !escape_unichar_bmp, !u_escape_eq by assumption.
  cbn [app].
  rewrite (@scanstring_u_pair hi lo _ _ _ _ _ _ _ _ (34 :: rest));
    try assumption; try (apply hex4_u_escape; lia).
  reflexivity.
Qed.

End DumpsFacts.

(** X14: the relay reads the test publisher's payload back.  For a tag
    of valid code points in which no high surrogate is followed by a low
    surrogate, and every timestamp, [json.loads] of the text
    [json.dumps] builds is the dict the script passed: the tag under
    [tag_id], the timestamp under [timestamp], in this order. *)
Theorem scan_text_round_trip tag now :
  TestPub.code_points tag = true ->
  TestPub.no_surrogate_pair tag = true ->
  Json.loads (TestPub.dumps_scan tag now)
  = Some (Json.PyDict [(py "tag_id", Json.PyStr tag);
                       (py "timestamp", Json.PyInt now)]).
Proof. apply loads_dumps_scan. Qed.

Lemma scan_text_round_trip_witness :
  Json.loads (TestPub.dumps_scan (py "TEST123") 1700000000)
  = Some (Json.PyDict [(py "tag_id", Json.PyStr (py "TEST123"));
                       (py "timestamp", Json.PyInt 1700000000)]).
Proof.
  exact (@scan_text_round_trip (py "TEST123") 1700000000 eq_refl eq_refl).
Defined.

(** X15: whatever the tag and the timestamp, the payload of the test
    publisher is printable ASCII (every character from the space to the
    tilde), so that paho can always encode it, one byte per character. *)
Theorem scan_text_is_printable_ascii tag now :
  Forall (fun c => 32 <= c <= 126)%N (TestPub.dumps_scan tag now)
  /\ wire_payload (TestPub.dumps_scan tag now)
     = Some (map Utf8.byte_of (TestPub.dumps_scan tag now)).
Proof.
  split; [apply dumps_scan_printable | apply encode_dumps_scan].
Qed.



(** X17: a tag with a surrogate pair does not come back as it was sent.
    When the tag is a high surrogate followed by a low surrogate, the
    text is still read as a dict with both keys, but the two code units
    of the tag have become the one code point they encode. *)
Theorem surrogate_pair_tag_is_joined hi lo now :
  Json.is_high_surrogate hi = true ->
  Json.is_low_surrogate lo = true ->
  Json.loads (TestPub.dumps_scan [hi; lo] now)
  = Some (Json.PyDict
            [(py "tag_id", Json.PyStr [Json.join_surrogates hi lo]);
             (py "timestamp", Json.PyInt now)])
  /\ [Json.join_surrogates hi lo] <> [hi; lo].
Proof.
  intros H L. split; [|discriminate].
  apply loads_dumps_scan_as. intros rest.
  now apply scanstring_surrogates.
Qed.

Lemma surrogate_pair_tag_is_joined_witness :
  Json.loads (TestPub.dumps_scan [0xD83D; 0xDE00]%N 0)
  = Some (Json.PyDict [(py "tag_id", Json.PyStr [0x1F600]%N);
                       (py "timestamp", Json.PyInt 0)]).
Proof.
  exact (proj1 (@surrogate_pair_tag_is_joined 0xD83D%N 0xDE00%N 0
                  eq_refl eq_refl)).
Defined.
